(** * SM9 protocol layer of GmSSL (src/sm9_z256_lib.c), shallow embedding

    The protocol functions of [sm9_z256_lib.c] are written over the SM9
    primitive layer (field, curve and pairing arithmetic of [sm9_z256],
    the SM3 hash, its KDF and HMAC), which is not among the sources.  That
    layer is an interface here (the class [SM9Prims]); the algebraic
    contract the protocol relies on is a separate class ([SM9Contract]).

    Stateful code runs in a small state monad whose state is the stream of
    values the secure random source will return ([sm9_z256_fn_rand]) and a
    log of the calls made to the expensive primitives (pairings, KDF and
    HMAC runs).  A [do { ... } while (...)] loop runs on fuel: [None] is a
    run that did not finish within the fuel.

    Byte strings are lists of 8-bit values held in [Z]. *)

From Stdlib Require Import ZArith List Bool Lia.
Import ListNotations.
Open Scope Z_scope.

Definition byte := Z.
Definition bytes := list byte.

(** [buf + off], [len] bytes. *)
Definition sub_bytes (buf : bytes) (off len : Z) : bytes :=
  firstn (Z.to_nat len) (skipn (Z.to_nat off) buf).

Fixpoint bytes_eqb (a b : bytes) : bool :=
  match a, b with
  | [], [] => true
  | x :: a', y :: b' => (x =? y) && bytes_eqb a' b'
  | _, _ => false
  end.

(** [n] big-endian bytes of [x]. *)
Fixpoint be_bytes_n (n : nat) (x : Z) : bytes :=
  match n with
  | O => []
  | S k => be_bytes_n k (x / 256) ++ [x mod 256]
  end.

Definition be_value (l : bytes) : Z :=
  fold_left (fun acc b => acc * 256 + b) l 0.

(** ** ASN.1 DER (gmssl/asn1.h, not among the sources) *)

(** Modelled from the spec: the ASN.1 contract of section 6 (two-pass DER
    emission, INTEGER, OCTET STRING, BIT STRING wrapping whole octets,
    SEQUENCE header, [asn1_length_is_zero]); the length form follows X.690
    definite lengths with at most four long-form length bytes, and a
    decoder checks that the announced length is available. *)
Module Asn1.

Definition ASN1_TAG_INTEGER := 2.
Definition ASN1_TAG_BIT_STRING := 3.
Definition ASN1_TAG_OCTET_STRING := 4.
Definition ASN1_TAG_SEQUENCE := 48.

(** Outcome of a [*_from_der] decoder: [1] with the value and the rest of
    the input, [0] when the tag is not there, [-1] on a malformed input. *)
Inductive der_res (A : Type) :=
| DOk (a : A) (rest : bytes)
| DAbsent
| DErr.
Arguments DOk {A}.
Arguments DAbsent {A}.
Arguments DErr {A}.

Definition asn1_length_to_der (len : Z) : bytes :=
  if len <? 128 then [len]
  else
    let n := if len <? 256 then 1%nat
             else if len <? 65536 then 2%nat
             else if len <? 16777216 then 3%nat else 4%nat in
    (128 + Z.of_nat n) :: be_bytes_n n len.

Definition asn1_length_from_der (d : bytes) : option (Z * bytes) :=
  match d with
  | [] => None
  | b :: rest =>
      if b <? 128 then Some (b, rest)
      else
        let nbytes := b - 128 in
        if (nbytes <? 1) || (4 <? nbytes) then None
        else if Z.of_nat (length rest) <? nbytes then None
        else Some (be_value (firstn (Z.to_nat nbytes) rest),
                   skipn (Z.to_nat nbytes) rest)
  end.

Definition asn1_type_to_der (tag : Z) (d : bytes) : bytes :=
  tag :: asn1_length_to_der (Z.of_nat (length d)) ++ d.

Definition asn1_type_from_der (tag : Z) (inp : bytes) : der_res bytes :=
  match inp with
  | [] => DAbsent
  | t :: rest =>
      if negb (t =? tag) then DAbsent
      else match asn1_length_from_der rest with
           | None => DErr
           | Some (len, rest') =>
               if Z.of_nat (length rest') <? len then DErr
               else DOk (firstn (Z.to_nat len) rest') (skipn (Z.to_nat len) rest')
           end
  end.

Definition asn1_sequence_header_to_der (len : Z) : bytes :=
  ASN1_TAG_SEQUENCE :: asn1_length_to_der len.
Definition asn1_sequence_from_der := asn1_type_from_der ASN1_TAG_SEQUENCE.

Definition asn1_octet_string_to_der := asn1_type_to_der ASN1_TAG_OCTET_STRING.
Definition asn1_octet_string_from_der := asn1_type_from_der ASN1_TAG_OCTET_STRING.

(** A BIT STRING of whole octets: the unused-bits byte is 0. *)
Definition asn1_bit_octets_to_der (d : bytes) : bytes :=
  asn1_type_to_der ASN1_TAG_BIT_STRING (0 :: d).
Definition asn1_bit_octets_from_der (inp : bytes) : der_res bytes :=
  match asn1_type_from_der ASN1_TAG_BIT_STRING inp with
  | DOk (0 :: d) rest => DOk d rest
  | DOk _ _ => DErr
  | DAbsent => DAbsent
  | DErr => DErr
  end.

(** INTEGER holding a C [int] (non-negative, at most 31 bits). *)
Fixpoint min_be (fuel : nat) (x : Z) : bytes :=
  match fuel with
  | O => []
  | S f => if x <? 256 then [x] else min_be f (x / 256) ++ [x mod 256]
  end.

Definition asn1_int_content (a : Z) : bytes :=
  let b := min_be 5 a in
  match b with
  | h :: _ => if 128 <=? h then 0 :: b else b
  | [] => [0]
  end.

Definition asn1_int_to_der (a : Z) : bytes :=
  asn1_type_to_der ASN1_TAG_INTEGER (asn1_int_content a).

Definition asn1_int_from_der (inp : bytes) : der_res Z :=
  match asn1_type_from_der ASN1_TAG_INTEGER inp with
  | DOk c rest =>
      match c with
      | [] => DErr
      | h :: t =>
          if 128 <=? h then DErr
          else if (h =? 0) && negb (match t with [] => true | x :: _ => 128 <=? x end)
          then DErr
          else if 4 <? Z.of_nat (length c) - (if h =? 0 then 1 else 0) then DErr
          else let v := be_value c in
               if 2147483647 <? v then DErr else DOk v rest
      end
  | DAbsent => DAbsent
  | DErr => DErr
  end.

(** [asn1_length_is_zero]: 1 when nothing is left. *)
Definition asn1_length_is_zero (len : Z) : bool := len =? 0.

End Asn1.
Import Asn1.

(** ** Constants of gmssl/sm9_z256.h and gmssl/sm3.h used by the sources *)

Definition SM9_HID_SIGN := 1.
Definition SM9_HID_ENC := 3.
Definition SM9_HID_EXCH := 2.
Definition SM9_HASH2_PREFIX := 2.
Definition SM3_HMAC_SIZE := 32.
Definition SM9_ENC_TYPE_XOR := 0.

(** ** The state monad *)

(** Calls worth observing: a draw of the random source, a pairing, a KDF
    run ([sm3_kdf_init] with its [klen]) and an HMAC run. *)
Inductive event :=
| EvRand (r : Z)
| EvPairing
| EvKdf (klen : Z)
| EvHmac.

Record state := mkst { st_draws : list Z; st_log : list event }.

Definition M (A : Type) := state -> option (A * state).

Definition ret {A} (a : A) : M A := fun s => Some (a, s).
Definition bind {A B} (m : M A) (k : A -> M B) : M B :=
  fun s => match m s with
           | Some (a, s') => k a s'
           | None => None
           end.

Notation "x <- m ;; k" := (bind m (fun x => k))
  (at level 61, m at next level, right associativity).
Notation "' p <- m ;; k" := (bind m (fun x => match x with p => k end))
  (at level 61, p pattern, m at next level, right associativity).

Definition emit (e : event) : M unit :=
  fun s => Some (tt, mkst (st_draws s) (st_log s ++ [e])).

(** [sm9_z256_fn_rand]: the next value of the random source; [None] when
    the source fails (the stream is exhausted). *)
Definition sm9_z256_fn_rand : M (option Z) :=
  fun s => match st_draws s with
           | [] => Some (None, s)
           | r :: rest => Some (Some r, mkst rest (st_log s ++ [EvRand r]))
           end.

(** One pass of a [do { body } while (cond)] loop: go round again, leave
    the loop, or [return code] from the enclosing function. *)
Inductive loop_step (T : Type) :=
| Again (s : T)
| Exit (s : T)
| Return (code : Z).
Arguments Again {T}.
Arguments Exit {T}.
Arguments Return {T}.

Fixpoint do_while {T} (fuel : nat) (body : T -> M (loop_step T)) (s : T)
  : M (Z + T) :=
  match fuel with
  | O => fun _ => None
  | S f =>
      r <- body s ;;
      match r with
      | Again s' => do_while f body s'
      | Exit s' => ret (inr s')
      | Return c => ret (inl c)
      end
  end.

(** A loop whose every pass first draws from the random source ends when
    the source is exhausted: one pass per draw and one more suffice. *)
Definition with_draw_fuel {A} (k : nat -> M A) : M A :=
  fun s => k (S (length (st_draws s))) s.

(** Modelled from the spec: [mem_is_zero] (gmssl/mem.h, not among the
    sources) tells whether the first [len] bytes are all zero. *)
Definition mem_is_zero (buf : bytes) (len : Z) : bool :=
  forallb (Z.eqb 0) (firstn (Z.to_nat len) buf).

(** [gmssl_memxor(r, a, b, len)]. *)
Definition gmssl_memxor (a b : bytes) (len : Z) : bytes :=
  map (fun '(x, y) => Z.lxor x y)
      (combine (firstn (Z.to_nat len) a) (firstn (Z.to_nat len) b)).

(** ** The primitive layer (gmssl/sm9_z256.h, gmssl/sm3.h) *)

(** The curve, pairing and hash primitives the protocol layer calls, with
    their C names; [SM9_MAX_PLAINTEXT_SIZE] is the header constant.
    [sm3_kdf klen z] is [sm3_kdf_init(klen)], [sm3_kdf_update] of the bytes
    of [z] and [sm3_kdf_finish]; [sm3_hmac key d] the same for HMAC-SM3.
    [sm3_finish] returns the context it leaves behind with the digest. *)
Class SM9Prims := {
  SM9_Z256_N : Z;
  point : Type;
  twist_point : Type;
  fp12 : Type;
  sm3_ctx : Type;
  SM9_Z256_MONT_P1 : point;
  SM9_Z256_MONT_P2 : twist_point;
  sm9_z256_point_mul : Z -> point -> point;
  sm9_z256_point_add : point -> point -> point;
  sm9_z256_point_is_on_curve : point -> bool;
  sm9_z256_point_to_uncompressed_octets : point -> bytes;
  sm9_z256_point_from_uncompressed_octets : bytes -> option point;
  sm9_z256_twist_point_mul_generator : Z -> twist_point;
  sm9_z256_twist_point_add_full : twist_point -> twist_point -> twist_point;
  sm9_z256_pairing : twist_point -> point -> fp12;
  sm9_z256_fp12_pow : fp12 -> Z -> fp12;
  sm9_z256_fp12_mul : fp12 -> fp12 -> fp12;
  sm9_z256_fp12_to_bytes : fp12 -> bytes;
  sm9_z256_hash1 : bytes -> Z -> Z;
  sm9_z256_fn_from_hash : bytes -> Z;
  sm9_z256_fn_to_bytes : Z -> bytes;
  sm9_z256_fn_from_bytes : bytes -> option Z;
  sm3_init : sm3_ctx;
  sm3_update : sm3_ctx -> bytes -> sm3_ctx;
  sm3_finish : sm3_ctx -> sm3_ctx * bytes;
  sm3_kdf : Z -> bytes -> bytes;
  sm3_hmac : bytes -> bytes -> bytes;
  SM9_MAX_PLAINTEXT_SIZE : Z
}.

(** The contract of the primitive layer the protocol relies on: a
    bilinear pairing [pairing(G2, G1)] into a group where
    [e(P2, P1)] has order dividing [N], and the codecs of scalars and
    points. *)
Class SM9Contract `{SM9Prims} : Prop := {
  N_gt_1 : 1 < SM9_Z256_N;
  pairing_generator : forall a,
    sm9_z256_pairing (sm9_z256_twist_point_mul_generator a) SM9_Z256_MONT_P1
    = sm9_z256_fp12_pow (sm9_z256_pairing SM9_Z256_MONT_P2 SM9_Z256_MONT_P1) a;
  pairing_point_mul : forall Q a P,
    sm9_z256_pairing Q (sm9_z256_point_mul a P)
    = sm9_z256_fp12_pow (sm9_z256_pairing Q P) a;
  point_mul_mul : forall a b P,
    sm9_z256_point_mul a (sm9_z256_point_mul b P) = sm9_z256_point_mul (a * b) P;
  twist_add_generator : forall a b,
    sm9_z256_twist_point_add_full (sm9_z256_twist_point_mul_generator a)
      (sm9_z256_twist_point_mul_generator b)
    = sm9_z256_twist_point_mul_generator (a + b);
  fp12_pow_pow : forall x a b,
    sm9_z256_fp12_pow (sm9_z256_fp12_pow x a) b = sm9_z256_fp12_pow x (a * b);
  fp12_mul_pow : forall x a b,
    sm9_z256_fp12_mul (sm9_z256_fp12_pow x a) (sm9_z256_fp12_pow x b)
    = sm9_z256_fp12_pow x (a + b);
  fp12_pow_mod : forall a,
    sm9_z256_fp12_pow (sm9_z256_pairing SM9_Z256_MONT_P2 SM9_Z256_MONT_P1) a
    = sm9_z256_fp12_pow (sm9_z256_pairing SM9_Z256_MONT_P2 SM9_Z256_MONT_P1)
        (a mod SM9_Z256_N);
  fn_bytes_roundtrip : forall h, 0 <= h < SM9_Z256_N ->
    sm9_z256_fn_from_bytes (sm9_z256_fn_to_bytes h) = Some h
    /\ length (sm9_z256_fn_to_bytes h) = 32%nat;
  point_octets_roundtrip : forall P, sm9_z256_point_is_on_curve P = true ->
    sm9_z256_point_from_uncompressed_octets (sm9_z256_point_to_uncompressed_octets P)
      = Some P
    /\ length (sm9_z256_point_to_uncompressed_octets P) = 65%nat
}.

(** Further laws of the primitive layer, used by the round trips of the
    protocol: adding multiples of [P1] adds the scalars, a multiple of
    [P1] by a scalar not divisible by [N] is a point of the curve,
    [sm9_z256_fn_from_hash] lands in [[1, N-1]], the KDF returns [klen]
    bytes, HMAC-SM3 returns 32 bytes, and [SM9_MAX_PLAINTEXT_SIZE] fits
    the DER lengths. *)
Class SM9ContractExt `{SM9Prims} : Prop := {
  point_add_mul : forall a b,
    sm9_z256_point_add (sm9_z256_point_mul a SM9_Z256_MONT_P1)
      (sm9_z256_point_mul b SM9_Z256_MONT_P1)
    = sm9_z256_point_mul (a + b) SM9_Z256_MONT_P1;
  point_mul_P1_on_curve : forall a, a mod SM9_Z256_N <> 0 ->
    sm9_z256_point_is_on_curve (sm9_z256_point_mul a SM9_Z256_MONT_P1) = true;
  fn_from_hash_range : forall Ha,
    1 <= sm9_z256_fn_from_hash Ha <= SM9_Z256_N - 1;
  sm3_kdf_length : forall klen z, 0 <= klen ->
    length (sm3_kdf klen z) = Z.to_nat klen;
  sm3_hmac_length : forall k d, length (sm3_hmac k d) = 32%nat;
  max_plaintext_range : 0 <= SM9_MAX_PLAINTEXT_SIZE < 2 ^ 31
}.

(** ** The protocol layer: [sm9_z256_lib.c] *)

Section SM9Lib.
Context `{SM9Prims}.

(** Scalar field [Fn] operations: integers modulo [N]. *)
Definition sm9_z256_fn_sub (a b : Z) : Z := (a - b) mod SM9_Z256_N.
Definition sm9_z256_fn_is_zero (a : Z) : bool := a =? 0.
Definition sm9_z256_fn_equ (a b : Z) : bool := a =? b.

Definition pairing_m (Q : twist_point) (P : point) : M fp12 :=
  _ <- emit EvPairing ;; ret (sm9_z256_pairing Q P).
Definition sm3_kdf_m (klen : Z) (z : bytes) : M bytes :=
  _ <- emit (EvKdf klen) ;; ret (sm3_kdf klen z).
Definition sm3_hmac_m (key data : bytes) : M bytes :=
  _ <- emit EvHmac ;; ret (sm3_hmac key data).

Record SM9_SIGNATURE := { sig_h : Z; sig_S : point }.
Record SM9_SIGN_MASTER_KEY := { sign_mpk_ks : Z; sign_mpk_Ppubs : twist_point }.
Record SM9_SIGN_KEY := { sign_key_Ppubs : twist_point; sign_key_ds : point }.
Record SM9_ENC_MASTER_KEY := { enc_mpk_ke : Z; enc_mpk_Ppube : point }.
Record SM9_ENC_KEY := { enc_key_Ppube : point; enc_key_de : twist_point }.
(** The exchange keys have the shapes of the encryption keys. *)
Definition SM9_EXCH_MASTER_KEY := SM9_ENC_MASTER_KEY.
Definition SM9_EXCH_KEY := SM9_ENC_KEY.

(** *** Signature DER codec *)

Definition sm9_signature_to_der (sig : SM9_SIGNATURE) : bytes :=
  let hbuf := sm9_z256_fn_to_bytes (sig_h sig) in
  let Sbuf := sm9_z256_point_to_uncompressed_octets (sig_S sig) in
  (* first pass: the length of the contents *)
  let len := Z.of_nat (length (asn1_octet_string_to_der hbuf)
                       + length (asn1_bit_octets_to_der Sbuf)) in
  asn1_sequence_header_to_der len
  ++ asn1_octet_string_to_der hbuf
  ++ asn1_bit_octets_to_der Sbuf.

(** Return code, and the signature with the input left after it. *)
Definition sm9_signature_from_der (inp : bytes)
  : Z * option (SM9_SIGNATURE * bytes) :=
  match asn1_sequence_from_der inp with
  | DAbsent => (0, None)
  | DErr => (-1, None)
  | DOk d rest =>
      match asn1_octet_string_from_der d with
      | DOk h d1 =>
          match asn1_bit_octets_from_der d1 with
          | DOk Sb d2 =>
              if (Z.of_nat (length h) =? 32) && (Z.of_nat (length Sb) =? 65)
                 && asn1_length_is_zero (Z.of_nat (length d2))
              then match sm9_z256_fn_from_bytes h,
                         sm9_z256_point_from_uncompressed_octets Sb with
                   | Some hv, Some Sv => (1, Some ({| sig_h := hv; sig_S := Sv |}, rest))
                   | _, _ => (-1, None)
                   end
              else (-1, None)
          | _ => (-1, None)
          end
      | _ => (-1, None)
      end
  end.

(** *** Sign and verify *)

Definition ct1 : bytes := [0; 0; 0; 1].
Definition ct2 : bytes := [0; 0; 0; 2].

(** [sm9_sign_init] / [sm9_verify_init] followed by [*_update(data)]. *)
Definition sm9_sign_init : sm3_ctx := sm3_update sm3_init [SM9_HASH2_PREFIX].
Definition sm9_sign_update (ctx : sm3_ctx) (data : bytes) : sm3_ctx :=
  sm3_update ctx data.

(** The H2 step shared by sign (A4) and verify (B9): absorb [wbuf] into
    [ctx], fork [tmp_ctx], finish both with the counters 1 and 2 and reduce
    [Ha] into [Fn]; returns the context [ctx] is left in and [h]. *)
Definition sm9_hash2_step (ctx : sm3_ctx) (wbuf : bytes) : sm3_ctx * Z :=
  let ctx := sm3_update ctx wbuf in
  let tmp_ctx := ctx in
  let '(ctx, Ha1) := sm3_finish (sm3_update ctx ct1) in
  let '(_, Ha2) := sm3_finish (sm3_update tmp_ctx ct2) in
  (ctx, sm9_z256_fn_from_hash (Ha1 ++ Ha2)).

(** Loop state of [sm9_do_sign]: [g], [ctx], [r] and [sig->h]. *)
Definition sm9_sign_body (ls : fp12 * sm3_ctx * Z * Z)
  : M (loop_step (fp12 * sm3_ctx * Z * Z)) :=
  let '(g, ctx, _, _) := ls in
  o <- sm9_z256_fn_rand ;;
  match o with
  | None => ret (Return (-1))
  | Some r =>
      (* A3: w = g^r, written back into g *)
      let g := sm9_z256_fp12_pow g r in
      let wbuf := sm9_z256_fp12_to_bytes g in
      (* A4: h = H2(M || w, N) *)
      let '(ctx, h) := sm9_hash2_step ctx wbuf in
      (* A5: l = (r - h) mod N, if l = 0, goto A2 *)
      let r := sm9_z256_fn_sub r h in
      ret (if sm9_z256_fn_is_zero r then Again (g, ctx, r, h)
           else Exit (g, ctx, r, h))
  end.

Definition sm9_do_sign (key : SM9_SIGN_KEY) (sm3_ctx0 : sm3_ctx)
  : M (Z * option SM9_SIGNATURE) :=
  (* A1: g = e(P1, Ppubs) *)
  g <- pairing_m (sign_key_Ppubs key) SM9_Z256_MONT_P1 ;;
  res <- with_draw_fuel (fun fuel =>
           do_while fuel sm9_sign_body (g, sm3_ctx0, 0, 0)) ;;
  match res with
  | inl code => ret (code, None)
  | inr (_, _, l, h) =>
      (* A6: S = l * dsA *)
      ret (1, Some {| sig_h := h;
                      sig_S := sm9_z256_point_mul l (sign_key_ds key) |})
  end.

(** [sm9_sign_finish(ctx, key, sig, siglen)]: the return code and the
    DER bytes written to [sig]. *)
Definition sm9_sign_finish (ctx : sm3_ctx) (key : SM9_SIGN_KEY)
  : M (Z * option bytes) :=
  '(code, o) <- sm9_do_sign key ctx ;;
  match code, o with
  | 1, Some signature => ret (1, Some (sm9_signature_to_der signature))
  | _, _ => ret (-1, None)
  end.

Definition sm9_do_verify (mpk : SM9_SIGN_MASTER_KEY) (id : bytes)
  (sm3_ctx0 : sm3_ctx) (sig : SM9_SIGNATURE) : M Z :=
  (* B1: check h in [1, N-1] *)
  (* B2: check S in G1 *)
  (* B3: g = e(P1, Ppubs) *)
  g <- pairing_m (sign_mpk_Ppubs mpk) SM9_Z256_MONT_P1 ;;
  (* B4: t = g^h *)
  let t := sm9_z256_fp12_pow g (sig_h sig) in
  (* B5: h1 = H1(ID || hid, N) *)
  let h1 := sm9_z256_hash1 id SM9_HID_SIGN in
  (* B6: P = h1 * P2 + Ppubs *)
  let P := sm9_z256_twist_point_mul_generator h1 in
  let P := sm9_z256_twist_point_add_full P (sign_mpk_Ppubs mpk) in
  (* B7: u = e(S, P) *)
  u <- pairing_m P (sig_S sig) ;;
  (* B8: w = u * t *)
  let w := sm9_z256_fp12_mul u t in
  let wbuf := sm9_z256_fp12_to_bytes w in
  (* B9: h2 = H2(M || w, N), check h2 == h *)
  let '(_, h2) := sm9_hash2_step sm3_ctx0 wbuf in
  if negb (sm9_z256_fn_equ h2 (sig_h sig)) then ret 0 else ret 1.

(** [sm9_verify_init] / [sm9_verify_update]: the same context as the
    signing side. *)
Definition sm9_verify_init : sm3_ctx := sm3_update sm3_init [SM9_HASH2_PREFIX].
Definition sm9_verify_update (ctx : sm3_ctx) (data : bytes) : sm3_ctx :=
  sm3_update ctx data.

(** [sm9_verify_finish(ctx, sig, siglen, mpk, id, idlen)]. *)
Definition sm9_verify_finish (ctx : sm3_ctx) (sig : bytes)
  (mpk : SM9_SIGN_MASTER_KEY) (id : bytes) : M Z :=
  match sm9_signature_from_der sig with
  | (1, Some (signature, rest)) =>
      if negb (asn1_length_is_zero (Z.of_nat (length rest))) then ret (-1) else
      r <- sm9_do_verify mpk id ctx signature ;;
      if r <? 0 then ret (-1) else ret r
  | _ => ret (-1)
  end.

(** *** KEM *)

(** Loop state of [sm9_kem_encrypt]: [C] and [kbuf]. *)
Definition sm9_kem_encrypt_body (mpk : SM9_ENC_MASTER_KEY) (id : bytes)
  (klen : Z) (ls : point * bytes) : M (loop_step (point * bytes)) :=
  let '(C, _) := ls in
  o <- sm9_z256_fn_rand ;;
  match o with
  | None => ret (Return (-1))
  | Some r =>
      (* A3: C1 = r * Q, written back into C *)
      let C := sm9_z256_point_mul r C in
      let cbuf := sm9_z256_point_to_uncompressed_octets C in
      (* A4: g = e(Ppube, P2) *)
      w <- pairing_m SM9_Z256_MONT_P2 (enc_mpk_Ppube mpk) ;;
      (* A5: w = g^r *)
      let w := sm9_z256_fp12_pow w r in
      let wbuf := sm9_z256_fp12_to_bytes w in
      (* A6: K = KDF(C || w || ID_B, klen), if K == 0, goto A2 *)
      kbuf <- sm3_kdf_m klen (sub_bytes cbuf 1 64 ++ wbuf ++ id) ;;
      ret (if mem_is_zero kbuf klen then Again (C, kbuf) else Exit (C, kbuf))
  end.

(** Return code, and [(kbuf, C)]. *)
Definition sm9_kem_encrypt (mpk : SM9_ENC_MASTER_KEY) (id : bytes) (klen : Z)
  : M (Z * option (bytes * point)) :=
  (* A1: Q = H1(ID||hid,N) * P1 + Ppube *)
  let r := sm9_z256_hash1 id SM9_HID_ENC in
  let C := sm9_z256_point_mul r SM9_Z256_MONT_P1 in
  let C := sm9_z256_point_add C (enc_mpk_Ppube mpk) in
  res <- with_draw_fuel (fun fuel =>
           do_while fuel (sm9_kem_encrypt_body mpk id klen) (C, [])) ;;
  match res with
  | inl code => ret (code, None)
  | inr (C, kbuf) => ret (1, Some (kbuf, C))
  end.

Definition sm9_kem_decrypt (key : SM9_ENC_KEY) (id : bytes) (C : point)
  (klen : Z) : M (Z * option bytes) :=
  (* B1: check C in G1 *)
  let cbuf := sm9_z256_point_to_uncompressed_octets C in
  (* B2: w = e(C, de) *)
  w <- pairing_m (enc_key_de key) C ;;
  let wbuf := sm9_z256_fp12_to_bytes w in
  (* B3: K = KDF(C || w || ID, klen) *)
  kbuf <- sm3_kdf_m klen (sub_bytes cbuf 1 64 ++ wbuf ++ id) ;;
  if mem_is_zero kbuf klen then ret (-1, None) else ret (1, Some kbuf).

(** *** Encryption envelope *)

(** Return code, and [(C1, c2, c3)]. *)
Definition sm9_do_encrypt (mpk : SM9_ENC_MASTER_KEY) (id : bytes) (inp : bytes)
  : M (Z * option (point * bytes * bytes)) :=
  let inlen := Z.of_nat (length inp) in
  (* uint8_t K[SM9_MAX_PLAINTEXT_SIZE + 32]; klen = sizeof(K) *)
  '(code, oK) <- sm9_kem_encrypt mpk id (SM9_MAX_PLAINTEXT_SIZE + 32) ;;
  match code, oK with
  | 1, Some (K, C1) =>
      let c2 := gmssl_memxor K inp inlen in
      c3 <- sm3_hmac_m (sub_bytes K inlen SM3_HMAC_SIZE) c2 ;;
      ret (1, Some (C1, c2, c3))
  | _, _ => ret (-1, None)
  end.

(** Return code, and the plaintext written to [out]. *)
Definition sm9_do_decrypt (key : SM9_ENC_KEY) (id : bytes) (C1 : point)
  (c2 c3 : bytes) : M (Z * option bytes) :=
  let c2len := Z.of_nat (length c2) in
  if SM9_MAX_PLAINTEXT_SIZE <? c2len then ret (-1, None) else
  (* uint8_t k[SM9_MAX_PLAINTEXT_SIZE + SM3_HMAC_SIZE]; klen = sizeof(k) *)
  '(code, ok) <- sm9_kem_decrypt key id C1 (SM9_MAX_PLAINTEXT_SIZE + SM3_HMAC_SIZE) ;;
  match code, ok with
  | 1, Some k =>
      mac <- sm3_hmac_m (sub_bytes k c2len SM3_HMAC_SIZE) c2 ;;
      if negb (bytes_eqb (sub_bytes c3 0 SM3_HMAC_SIZE) mac) then ret (-1, None)
      else ret (1, Some (gmssl_memxor k c2 c2len))
  | _, _ => ret (-1, None)
  end.

(** *** Ciphertext DER codec *)

Definition sm9_ciphertext_to_der (C1 : point) (c2 c3 : bytes) : bytes :=
  let en_type := SM9_ENC_TYPE_XOR in
  let c1 := sm9_z256_point_to_uncompressed_octets C1 in
  let len := Z.of_nat (length (asn1_int_to_der en_type)
                       + length (asn1_bit_octets_to_der c1)
                       + length (asn1_octet_string_to_der (sub_bytes c3 0 SM3_HMAC_SIZE))
                       + length (asn1_octet_string_to_der c2)) in
  asn1_sequence_header_to_der len
  ++ asn1_int_to_der en_type
  ++ asn1_bit_octets_to_der c1
  ++ asn1_octet_string_to_der (sub_bytes c3 0 SM3_HMAC_SIZE)
  ++ asn1_octet_string_to_der c2.

(** Return code, and [(C1, c2, c3)] with the input left after the
    SEQUENCE. *)
Definition sm9_ciphertext_from_der (inp : bytes)
  : Z * option (point * bytes * bytes * bytes) :=
  match asn1_sequence_from_der inp with
  | DAbsent => (0, None)
  | DErr => (-1, None)
  | DOk d rest =>
      match asn1_int_from_der d with
      | DOk en_type d1 =>
      match asn1_bit_octets_from_der d1 with
      | DOk c1 d2 =>
      match asn1_octet_string_from_der d2 with
      | DOk c3 d3 =>
      match asn1_octet_string_from_der d3 with
      | DOk c2 d4 =>
          if negb (asn1_length_is_zero (Z.of_nat (length d4))) then (-1, None)
          else if negb (en_type =? SM9_ENC_TYPE_XOR) then (-1, None)
          else if negb (Z.of_nat (length c1) =? 65) then (-1, None)
          else if negb (Z.of_nat (length c3) =? SM3_HMAC_SIZE) then (-1, None)
          else match sm9_z256_point_from_uncompressed_octets c1 with
               | None => (-1, None)
               | Some C1 => (1, Some (C1, c2, c3, rest))
               end
      | _ => (-1, None) end
      | _ => (-1, None) end
      | _ => (-1, None) end
      | _ => (-1, None) end
  end.

(** Return code and the output of [sm9_encrypt] ([*outlen] bytes). *)
Definition sm9_encrypt (mpk : SM9_ENC_MASTER_KEY) (id inp : bytes)
  : M (Z * option bytes) :=
  if SM9_MAX_PLAINTEXT_SIZE <? Z.of_nat (length inp) then ret (-1, None) else
  '(code, o) <- sm9_do_encrypt mpk id inp ;;
  match code, o with
  | 1, Some (C1, c2, c3) => ret (1, Some (sm9_ciphertext_to_der C1 c2 c3))
  | _, _ => ret (-1, None)
  end.

(** [sm9_decrypt(key, id, in, inlen, out, outlen)]: [out_given] is
    [out != NULL]; the result is the return code, the value stored in
    [*outlen] (if any) and the bytes written to [out] (if any). *)
Definition sm9_decrypt (key : SM9_ENC_KEY) (id inp : bytes) (out_given : bool)
  : M (Z * option Z * option bytes) :=
  match sm9_ciphertext_from_der inp with
  | (1, Some (C1, c2, c3, rest)) =>
      if negb (asn1_length_is_zero (Z.of_nat (length rest))) then ret (-1, None, None)
      else
        let outlen := Z.of_nat (length c2) in
        if negb out_given then ret (1, Some outlen, None)
        else
          '(code, om) <- sm9_do_decrypt key id C1 c2 c3 ;;
          match code, om with
          | 1, Some m => ret (1, Some outlen, Some m)
          | _, _ => ret (-1, Some outlen, None)
          end
  | _ => ret (-1, None, None)
  end.

(** *** Key exchange *)

(** The values [sm9_z256_from_hex] writes over the drawn [rA] and [rB]
    ("Only for testing"). *)
Definition SM9_TEST_rA :=
  0x00005879DD1D51E175946F23B1B41E93BA31C584AE59A426EC1046A4D03B06C8.
Definition SM9_TEST_rB :=
  0x00018B98C44BEF9F8537FB7D071B2C928B3BC65BD3D69E1EEE213564905634FE.

(** Return code, and [(RA, rA)]. *)
Definition sm9_exch_step_1A (mpk : SM9_EXCH_MASTER_KEY) (idB : bytes)
  : M (Z * option (point * Z)) :=
  (* A1: Q = H1(ID_B||hid,N) * P1 + Ppube *)
  let rA := sm9_z256_hash1 idB SM9_HID_EXCH in
  let RA := sm9_z256_point_mul rA SM9_Z256_MONT_P1 in
  let RA := sm9_z256_point_add RA (enc_mpk_Ppube mpk) in
  (* A2: rand rA in [1, N-1] *)
  o <- sm9_z256_fn_rand ;;
  match o with
  | None => ret (-1, None)
  | Some rA =>
      (* Only for testing *)
      let rA := SM9_TEST_rA in
      (* A3: RA = rA * Q *)
      let RA := sm9_z256_point_mul rA RA in
      ret (1, Some (RA, rA))
  end.

(** The KDF input [ID_A || ID_B || RA || RB || g1 || g2 || g3] of B5/A7. *)
Definition sm9_exch_kdf_input (idA idB : bytes) (RA RB : point)
  (G1 G2 G3 : fp12) : bytes :=
  let ta := sm9_z256_point_to_uncompressed_octets RA in
  let tb := sm9_z256_point_to_uncompressed_octets RB in
  idA ++ idB ++ sub_bytes ta 1 64 ++ sub_bytes tb 1 64
  ++ sm9_z256_fp12_to_bytes G1 ++ sm9_z256_fp12_to_bytes G2
  ++ sm9_z256_fp12_to_bytes G3.

(** Loop state of [sm9_exch_step_1B]: [RB] and [sk]. *)
Definition sm9_exch_step_1B_body (mpk : SM9_EXCH_MASTER_KEY) (idA idB : bytes)
  (key : SM9_EXCH_KEY) (RA : point) (klen : Z) (ls : point * bytes)
  : M (loop_step (point * bytes)) :=
  let '(RB, _) := ls in
  (* B2: rand rB in [1, N-1] *)
  o <- sm9_z256_fn_rand ;;
  match o with
  | None => ret (Return (-1))
  | Some rB =>
      (* Only for testing *)
      let rB := SM9_TEST_rB in
      (* B3: RB = rB * Q *)
      let RB := sm9_z256_point_mul rB RB in
      (* B4 *)
      if negb (sm9_z256_point_is_on_curve RA) then ret (Return (-1)) else
      G1 <- pairing_m (enc_key_de key) RA ;;
      G2 <- pairing_m SM9_Z256_MONT_P2 (enc_mpk_Ppube mpk) ;;
      let G2 := sm9_z256_fp12_pow G2 rB in
      let G3 := sm9_z256_fp12_pow G1 rB in
      (* B5: sk = KDF(ID_A || ID_B || RA || RB || g1 || g2 || g3, klen) *)
      sk <- sm3_kdf_m klen (sm9_exch_kdf_input idA idB RA RB G1 G2 G3) ;;
      ret (if mem_is_zero sk klen then Again (RB, sk) else Exit (RB, sk))
  end.

(** Return code, and [(RB, sk)]. *)
Definition sm9_exch_step_1B (mpk : SM9_EXCH_MASTER_KEY) (idA idB : bytes)
  (key : SM9_EXCH_KEY) (RA : point) (klen : Z) : M (Z * option (point * bytes)) :=
  (* B1: Q = H1(ID_A||hid,N) * P1 + Ppube *)
  let rB := sm9_z256_hash1 idA SM9_HID_EXCH in
  let RB := sm9_z256_point_mul rB SM9_Z256_MONT_P1 in
  let RB := sm9_z256_point_add RB (enc_mpk_Ppube mpk) in
  res <- with_draw_fuel (fun fuel =>
           do_while fuel (sm9_exch_step_1B_body mpk idA idB key RA klen) (RB, [])) ;;
  match res with
  | inl code => ret (code, None)
  | inr (RB, sk) => ret (1, Some (RB, sk))
  end.

(** One pass of the loop of [sm9_exch_step_2A]; nothing in it changes from
    one pass to the next. *)
Definition sm9_exch_step_2A_body (mpk : SM9_EXCH_MASTER_KEY) (idA idB : bytes)
  (key : SM9_EXCH_KEY) (rA : Z) (RA RB : point) (klen : Z) (_ : bytes)
  : M (loop_step bytes) :=
  (* A5 *)
  if negb (sm9_z256_point_is_on_curve RB) then ret (Return (-1)) else
  G1 <- pairing_m SM9_Z256_MONT_P2 (enc_mpk_Ppube mpk) ;;
  let G1 := sm9_z256_fp12_pow G1 rA in
  G2 <- pairing_m (enc_key_de key) RB ;;
  let G3 := sm9_z256_fp12_pow G2 rA in
  (* A7: sk = KDF(ID_A || ID_B || RA || RB || g1 || g2 || g3, klen) *)
  sk <- sm3_kdf_m klen (sm9_exch_kdf_input idA idB RA RB G1 G2 G3) ;;
  ret (if mem_is_zero sk klen then Again sk else Exit sk).

(** The loop draws nothing, so it runs on an explicit [fuel]. *)
Definition sm9_exch_step_2A (mpk : SM9_EXCH_MASTER_KEY) (idA idB : bytes)
  (key : SM9_EXCH_KEY) (rA : Z) (RA RB : point) (klen : Z) (fuel : nat)
  : M (Z * option bytes) :=
  res <- do_while fuel (sm9_exch_step_2A_body mpk idA idB key rA RA RB klen) [] ;;
  match res with
  | inl code => ret (code, None)
  | inr sk => ret (1, Some sk)
  end.

(** *** Key generation centre (not among the sources) *)

(** Modelled from the spec: [KGC.derive_sign] and the encryption key
    extraction, as GM/T 0044 defines them: [Ppub-s = ks P2],
    [ds = (ks / (H1(ID, hid) + ks)) P1]; [Ppub-e = ke P1],
    [de = (ke / (H1(ID, hid) + ke)) P2].  The inverse modulo the prime [N]
    is [a^(N-2)]. *)
Definition sm9_z256_fn_inv (a : Z) : Z := (a ^ (SM9_Z256_N - 2)) mod SM9_Z256_N.

Definition sm9_sign_master_key_generate (ks : Z) : SM9_SIGN_MASTER_KEY :=
  {| sign_mpk_ks := ks;
     sign_mpk_Ppubs := sm9_z256_twist_point_mul_generator ks |}.

Definition sm9_sign_master_key_extract_key (msk : SM9_SIGN_MASTER_KEY)
  (id : bytes) : SM9_SIGN_KEY :=
  let ks := sign_mpk_ks msk in
  let t1 := (sm9_z256_hash1 id SM9_HID_SIGN + ks) mod SM9_Z256_N in
  let t2 := (ks * sm9_z256_fn_inv t1) mod SM9_Z256_N in
  {| sign_key_Ppubs := sign_mpk_Ppubs msk;
     sign_key_ds := sm9_z256_point_mul t2 SM9_Z256_MONT_P1 |}.

Definition sm9_enc_master_key_generate (ke : Z) : SM9_ENC_MASTER_KEY :=
  {| enc_mpk_ke := ke;
     enc_mpk_Ppube := sm9_z256_point_mul ke SM9_Z256_MONT_P1 |}.

Definition sm9_enc_master_key_extract_key (msk : SM9_ENC_MASTER_KEY)
  (id : bytes) : SM9_ENC_KEY :=
  let ke := enc_mpk_ke msk in
  let t1 := (sm9_z256_hash1 id SM9_HID_ENC + ke) mod SM9_Z256_N in
  let t2 := (ke * sm9_z256_fn_inv t1) mod SM9_Z256_N in
  {| enc_key_Ppube := enc_mpk_Ppube msk;
     enc_key_de := sm9_z256_twist_point_mul_generator t2 |}.

End SM9Lib.

(** ** Observations of the log *)

(** The [klen] of every KDF run in a log, in order. *)
Definition kdf_klens (l : list event) : list Z :=
  flat_map (fun e => match e with EvKdf k => [k] | _ => [] end) l.

(** A log with the values drawn from the random source blotted out: two
    runs whose logs agree here made the same calls, whatever they drew. *)
Definition erase_draws (l : list event) : list event :=
  map (fun e => match e with EvRand _ => EvRand 0 | e => e end) l.

(** Two states that differ at most in the values the random source will
    return and has returned. *)
Definition same_shape (s1 s2 : state) : Prop :=
  length (st_draws s1) = length (st_draws s2)
  /\ erase_draws (st_log s1) = erase_draws (st_log s2).

(** [m] only ever appends to the log, and every KDF run it appends has
    [klen = k]. *)
Definition kdf_only {A} (k : Z) (m : M A) : Prop :=
  forall s a s', m s = Some (a, s') ->
    exists new, st_log s' = st_log s ++ new /\ Forall (eq k) (kdf_klens new).

(** [m] reads nothing of the values drawn: on two states of the same shape
    it gives the same result (or runs out of fuel on both), in states of the
    same shape. *)
Definition draw_blind {A} (m : M A) : Prop :=
  forall s1 s2, same_shape s1 s2 ->
    match m s1, m s2 with
    | Some (a1, t1), Some (a2, t2) => a1 = a2 /\ same_shape t1 t2
    | None, None => True
    | _, _ => False
    end.

(** ** A small instance of the primitive layer

    Groups of prime order 101 written additively by their discrete
    logarithms: a point of G1 is [k] for [k P1], a twist point [k] for
    [k P2] and an [fp12] value [k] for [e(P2, P1)^k]; so the pairing
    multiplies.  SM3 is replaced by a small byte-mixing digest, its KDF by
    a stretch of one digest byte and HMAC by the digest of [key || data].
    The instance meets [SM9Contract]; it is used to run the protocol code
    on concrete inputs. *)
Module Toy.

Definition N := 101.

Definition mix (j : Z) (c : bytes) : Z :=
  fold_left (fun acc b => (acc * 257 + b + j + 1) mod 1000003) c 7.
Definition digest (c : bytes) : bytes :=
  map (fun j => mix (Z.of_nat j) c mod 256) (seq 0 32).

Definition point_to (P : Z) : bytes := 4 :: be_bytes_n 32 P ++ be_bytes_n 32 0.
Definition point_from (b : bytes) : option Z :=
  match b with
  | 4 :: rest =>
      if (Z.of_nat (length rest) =? 64)
         && (be_value (firstn 32 rest) <? N)
         && (be_value (skipn 32 rest) =? 0)
      then Some (be_value (firstn 32 rest)) else None
  | _ => None
  end.

Definition fn_from_bytes (b : bytes) : option Z :=
  if (Z.of_nat (length b) =? 32) && (be_value b <? N) then Some (be_value b) else None.

#[export] Instance prims : SM9Prims := {
  SM9_Z256_N := N;
  point := Z;
  twist_point := Z;
  fp12 := Z;
  sm3_ctx := bytes;
  SM9_Z256_MONT_P1 := 1;
  SM9_Z256_MONT_P2 := 1;
  sm9_z256_point_mul := fun a P => (a * P) mod N;
  sm9_z256_point_add := fun P Q => (P + Q) mod N;
  sm9_z256_point_is_on_curve := fun P => (0 <=? P) && (P <? N);
  sm9_z256_point_to_uncompressed_octets := point_to;
  sm9_z256_point_from_uncompressed_octets := point_from;
  sm9_z256_twist_point_mul_generator := fun a => a mod N;
  sm9_z256_twist_point_add_full := fun P Q => (P + Q) mod N;
  sm9_z256_pairing := fun Q P => (Q * P) mod N;
  sm9_z256_fp12_pow := fun x a => (x * a) mod N;
  sm9_z256_fp12_mul := fun x y => (x + y) mod N;
  sm9_z256_fp12_to_bytes := be_bytes_n 12;
  sm9_z256_hash1 := fun id hid => (be_value (id ++ [hid]) mod (N - 1)) + 1;
  sm9_z256_fn_from_hash := fun Ha => (be_value Ha mod (N - 1)) + 1;
  sm9_z256_fn_to_bytes := be_bytes_n 32;
  sm9_z256_fn_from_bytes := fn_from_bytes;
  sm3_init := [];
  sm3_update := fun c d => c ++ d;
  sm3_finish := fun c => (c ++ [128], digest c);
  sm3_kdf := fun klen z => repeat (mix 0 z mod 256) (Z.to_nat klen);
  sm3_hmac := fun key d => digest (key ++ d);
  SM9_MAX_PLAINTEXT_SIZE := 16
}.

(** Keys and messages of the runs below. *)
Definition sign_msk := sm9_sign_master_key_generate 5.
Definition alice : bytes := [65].
Definition alice_sign_key := sm9_sign_master_key_extract_key sign_msk alice.
Definition msg_M : bytes := [77].
Definition ctx_M : bytes := sm9_sign_update sm9_sign_init msg_M.

Definition enc_msk := sm9_enc_master_key_generate 7.
Definition kate : bytes := [78].
Definition kate_enc_key := sm9_enc_master_key_extract_key enc_msk kate.
Definition plain : bytes := [1; 2; 3].

(** A signature of the small instance. *)
Definition toy_sig : SM9_SIGNATURE := {| sig_h := 69; sig_S := 51 |}.

(** The ciphertext [sm9_encrypt] gives for [plain] when the random source
    returns 3, and its C3 field. *)
Definition toy_ct : bytes :=
  match sm9_encrypt enc_msk kate plain (mkst [3] []) with
  | Some ((_, Some ct), _) => ct
  | _ => []
  end.
(** The same when the source returns 2 and then 3. *)
Definition toy_ct_restart : bytes :=
  match sm9_encrypt enc_msk kate plain (mkst [2; 3] []) with
  | Some ((_, Some ct), _) => ct
  | _ => []
  end.
Definition toy_c3 : bytes :=
  match snd (sm9_ciphertext_from_der toy_ct) with
  | Some (_, _, c3, _) => c3
  | None => []
  end.

End Toy.

(** * Proofs *)

(** ** Big-endian bytes *)

Lemma be_value_snoc (l : bytes) (x : byte) :
  be_value (l ++ [x]) = be_value l * 256 + x.
Proof. unfold be_value. now rewrite fold_left_app. Qed.

Lemma be_bytes_n_length (n : nat) (x : Z) : length (be_bytes_n n x) = n.
Proof.
  revert x; induction n as [|k IH]; intro x; simpl; [reflexivity|].
  rewrite length_app, IH; simpl; lia.
Qed.

Lemma be_value_be_bytes_n (n : nat) (x : Z) :
  be_value (be_bytes_n n x) = x mod 256 ^ Z.of_nat n.
Proof.
  revert x; induction n as [|k IH]; intro x.
  - simpl. now rewrite Z.mod_1_r.
  - simpl be_bytes_n. rewrite be_value_snoc, IH.
    rewrite Nat2Z.inj_succ, Z.pow_succ_r by lia.
    rewrite Z.rem_mul_r by (try lia; apply Z.pow_pos_nonneg; lia).
    lia.
Qed.

Lemma be_value_be_bytes_n_small (n : nat) (x : Z) :
  0 <= x < 256 ^ Z.of_nat n -> be_value (be_bytes_n n x) = x.
Proof. intro Hx. rewrite be_value_be_bytes_n. now apply Z.mod_small. Qed.

Lemma firstn_app_exact {A} (l1 l2 : list A) (n : nat) :
  n = length l1 -> firstn n (l1 ++ l2) = l1.
Proof.
  intros ->. rewrite firstn_app, Nat.sub_diag, firstn_all. simpl. apply app_nil_r.
Qed.

Lemma skipn_app_exact {A} (l1 l2 : list A) (n : nat) :
  n = length l1 -> skipn n (l1 ++ l2) = l2.
Proof. intros ->. rewrite skipn_app, Nat.sub_diag, skipn_all. reflexivity. Qed.

(** ** DER lengths and types *)

Lemma asn1_length_to_der_length (len : Z) :
  (length (asn1_length_to_der len) <= 5)%nat.
Proof.
  unfold asn1_length_to_der.
  destruct (len <? 128); [simpl; lia|].
  destruct (len <? 256); [|destruct (len <? 65536); [|destruct (len <? 16777216)]];
    cbn [length]; rewrite be_bytes_n_length; lia.
Qed.

Lemma asn1_length_roundtrip (len : Z) (rest : bytes) :
  0 <= len < 2 ^ 32 ->
  asn1_length_from_der (asn1_length_to_der len ++ rest) = Some (len, rest).
Proof.
  intro Hl. unfold asn1_length_to_der.
  destruct (len <? 128) eqn:E1.
  - simpl. now rewrite E1.
  - apply Z.ltb_ge in E1.
    assert (Hgen : forall n : nat, (1 <= n <= 4)%nat -> len < 256 ^ Z.of_nat n ->
      asn1_length_from_der (((128 + Z.of_nat n) :: be_bytes_n n len) ++ rest)
      = Some (len, rest)).
    { intros n Hn Hlt. rewrite <- app_comm_cons.
      unfold asn1_length_from_der. cbv beta iota zeta.
      replace (128 + Z.of_nat n <? 128) with false by (symmetry; apply Z.ltb_ge; lia).
      replace (128 + Z.of_nat n - 128) with (Z.of_nat n) by lia.
      replace ((Z.of_nat n <? 1) || (4 <? Z.of_nat n)) with false
        by (symmetry; apply orb_false_iff; split; apply Z.ltb_ge; lia).
      rewrite length_app, be_bytes_n_length.
      rewrite (proj2 (Z.ltb_ge _ _)) by lia.
      rewrite Nat2Z.id, firstn_app_exact, skipn_app_exact
        by (now rewrite be_bytes_n_length).
      now rewrite be_value_be_bytes_n_small by lia. }
    destruct (len <? 256) eqn:E2; [apply Hgen; simpl; lia|].
    destruct (len <? 65536) eqn:E3; [apply Hgen; simpl; lia|].
    destruct (len <? 16777216) eqn:E4; apply Hgen; simpl; lia.
Qed.

Lemma asn1_type_roundtrip (tag : Z) (d rest : bytes) :
  Z.of_nat (length d) < 2 ^ 32 ->
  asn1_type_from_der tag (asn1_type_to_der tag d ++ rest) = DOk d rest.
Proof.
  intro Hd. unfold asn1_type_to_der, asn1_type_from_der. simpl.
  rewrite Z.eqb_refl. simpl.
  rewrite <- app_assoc, asn1_length_roundtrip by lia.
  rewrite length_app.
  replace (Z.of_nat (length d + length rest) <? Z.of_nat (length d)) with false
    by (symmetry; apply Z.ltb_ge; lia).
  rewrite Nat2Z.id, firstn_app_exact, skipn_app_exact by reflexivity.
  reflexivity.
Qed.

Lemma asn1_bit_octets_roundtrip (d rest : bytes) :
  Z.of_nat (length d) < 2 ^ 31 ->
  asn1_bit_octets_from_der (asn1_bit_octets_to_der d ++ rest) = DOk d rest.
Proof.
  intro Hd. unfold asn1_bit_octets_from_der, asn1_bit_octets_to_der.
  rewrite asn1_type_roundtrip by (simpl length; lia). reflexivity.
Qed.

Lemma asn1_int_zero_roundtrip (rest : bytes) :
  asn1_int_from_der (asn1_int_to_der 0 ++ rest) = DOk 0 rest.
Proof.
  unfold asn1_int_from_der, asn1_int_to_der.
  rewrite asn1_type_roundtrip by (simpl; lia). reflexivity.
Qed.

Lemma asn1_sequence_roundtrip (body rest : bytes) :
  Z.of_nat (length body) < 2 ^ 32 ->
  asn1_sequence_from_der
    (asn1_sequence_header_to_der (Z.of_nat (length body)) ++ body ++ rest)
  = DOk body rest.
Proof.
  intro Hb. unfold asn1_sequence_from_der.
  rewrite <- asn1_type_roundtrip with (tag := ASN1_TAG_SEQUENCE) by exact Hb.
  unfold asn1_sequence_header_to_der, asn1_type_to_der. simpl.
  now rewrite <- app_assoc.
Qed.

(** ** The monad: what a computation adds to the log *)

Lemma kdf_klens_app (l1 l2 : list event) :
  kdf_klens (l1 ++ l2) = kdf_klens l1 ++ kdf_klens l2.
Proof. unfold kdf_klens. apply flat_map_app. Qed.

Lemma kdf_only_ret {A} (k : Z) (a : A) : kdf_only k (ret a).
Proof.
  intros s b s' E. injection E as <- <-. exists []. split.
  - now rewrite app_nil_r.
  - constructor.
Qed.

Lemma kdf_only_bind {A B} (k : Z) (m : M A) (f : A -> M B) :
  kdf_only k m -> (forall a, kdf_only k (f a)) -> kdf_only k (bind m f).
Proof.
  intros Hm Hf s b s'. unfold bind.
  destruct (m s) as [[a s1]|] eqn:E; [|discriminate].
  intro E2. destruct (Hm _ _ _ E) as [n1 [L1 F1]].
  destruct (Hf a _ _ _ E2) as [n2 [L2 F2]].
  exists (n1 ++ n2). split.
  - now rewrite L2, L1, app_assoc.
  - rewrite kdf_klens_app. now apply Forall_app.
Qed.

Lemma kdf_only_emit (k : Z) (e : event) :
  (forall k', e = EvKdf k' -> k' = k) -> kdf_only k (emit e).
Proof.
  intros He s u s' E. injection E as <- <-. exists [e]. split; [reflexivity|].
  destruct e; simpl; repeat constructor. symmetry. now apply He.
Qed.

Lemma kdf_only_rand (k : Z) : kdf_only k sm9_z256_fn_rand.
Proof.
  intros s o s'. unfold sm9_z256_fn_rand.
  destruct (st_draws s) as [|r rest].
  - intro E. injection E as <- <-. exists []. rewrite app_nil_r. split; constructor.
  - intro E. injection E as <- <-. exists [EvRand r]. simpl. split; constructor.
Qed.

Lemma kdf_only_do_while {T} (k : Z) (fuel : nat) (body : T -> M (loop_step T)) (ls : T) :
  (forall ls, kdf_only k (body ls)) -> kdf_only k (do_while fuel body ls).
Proof.
  intro Hb. revert ls; induction fuel as [|f IH]; intro ls.
  - intros s a s' E. discriminate.
  - simpl. apply kdf_only_bind; [apply Hb|].
    intros [s'|s'|c]; [apply IH|apply kdf_only_ret|apply kdf_only_ret].
Qed.

Lemma kdf_only_with_draw_fuel {A} (k : Z) (body : nat -> M A) :
  (forall fuel, kdf_only k (body fuel)) -> kdf_only k (with_draw_fuel body).
Proof. intros Hb s a s'. unfold with_draw_fuel. apply Hb. Qed.

(** A loop ends on [Exit] only with a state some pass exited with. *)
Lemma do_while_exit {T} (Q : T -> Prop) (fuel : nat) (body : T -> M (loop_step T))
  (ls : T) (s : state) (ls' : T) (s' : state) :
  (forall ls s ls' s', body ls s = Some (Exit ls', s') -> Q ls') ->
  do_while fuel body ls s = Some (inr ls', s') -> Q ls'.
Proof.
  intro Hb. revert ls s; induction fuel as [|f IH]; intros ls s; simpl; [discriminate|].
  unfold bind. destruct (body ls s) as [[[a|a|c] s1]|] eqn:E; try discriminate.
  - apply IH.
  - intro E2. injection E2 as <- <-. eapply Hb; exact E.
Qed.

(** ** The monad: computations that do not read the values drawn *)

Lemma erase_draws_app (l1 l2 : list event) :
  erase_draws (l1 ++ l2) = erase_draws l1 ++ erase_draws l2.
Proof. apply map_app. Qed.

Lemma draw_blind_ret {A} (a : A) : draw_blind (ret a).
Proof. intros s1 s2 Hs. simpl. auto. Qed.

Lemma draw_blind_bind {A B} (m : M A) (f : A -> M B) :
  draw_blind m -> (forall a, draw_blind (f a)) -> draw_blind (bind m f).
Proof.
  intros Hm Hf s1 s2 Hs. unfold bind.
  specialize (Hm s1 s2 Hs).
  destruct (m s1) as [[a1 t1]|], (m s2) as [[a2 t2]|]; try contradiction; auto.
  destruct Hm as [<- Ht]. now apply Hf.
Qed.

Lemma draw_blind_emit (e : event) : draw_blind (emit e).
Proof.
  intros s1 s2 [Hd Hl]. simpl. split; [reflexivity|]. split; [exact Hd|].
  simpl. now rewrite !erase_draws_app, Hl.
Qed.

Lemma draw_blind_do_while {T} (fuel : nat) (body : T -> M (loop_step T)) (ls : T) :
  (forall ls, draw_blind (body ls)) -> draw_blind (do_while fuel body ls).
Proof.
  intro Hb. revert ls; induction fuel as [|f IH]; intro ls.
  - intros s1 s2 _. exact I.
  - simpl. apply draw_blind_bind; [apply Hb|].
    intros [s'|s'|c]; [apply IH|apply draw_blind_ret|apply draw_blind_ret].
Qed.

Lemma draw_blind_with_draw_fuel {A} (body : nat -> M A) :
  (forall fuel, draw_blind (body fuel)) -> draw_blind (with_draw_fuel body).
Proof.
  intros Hb s1 s2 Hs. unfold with_draw_fuel.
  destruct Hs as [Hd Hl]. rewrite Hd. apply Hb. now split.
Qed.

(** A draw whose value is not used: [fn_rand] followed by a continuation
    that only asks whether the source failed. *)
Lemma draw_blind_rand_ignored {B} (k : option Z -> M B) :
  (forall r r', k (Some r) = k (Some r')) -> (forall o, draw_blind (k o)) ->
  draw_blind (bind sm9_z256_fn_rand k).
Proof.
  intros Hk Hb s1 s2 Hs. pose proof Hs as [Hd Hl].
  unfold bind, sm9_z256_fn_rand.
  destruct (st_draws s1) as [|r1 d1] eqn:E1, (st_draws s2) as [|r2 d2] eqn:E2;
    simpl in Hd; try discriminate.
  - now apply Hb.
  - rewrite (Hk r1 r2). apply Hb. split; simpl; [lia|].
    rewrite !erase_draws_app, Hl. reflexivity.
Qed.

(** ** The protocol layer, over any primitive layer *)

Section Protocol.
Context `{SM9Prims}.

Ltac kdf_step :=
  match goal with
  | |- kdf_only _ (bind _ _) => apply kdf_only_bind; [|intro]
  | |- kdf_only _ (ret _) => apply kdf_only_ret
  | |- kdf_only _ (emit _) =>
      apply kdf_only_emit; let k := fresh "k" in let E := fresh "E" in
      intros k E; (discriminate E || (injection E; auto))
  | |- kdf_only _ sm9_z256_fn_rand => apply kdf_only_rand
  | |- kdf_only _ (pairing_m _ _) => unfold pairing_m
  | |- kdf_only _ (sm3_kdf_m _ _) => unfold sm3_kdf_m
  | |- kdf_only _ (sm3_hmac_m _ _) => unfold sm3_hmac_m
  | |- kdf_only _ (if ?b then _ else _) => destruct b
  | |- kdf_only _ (match ?x with _ => _ end) => destruct x
  end.

Ltac blind_step :=
  match goal with
  | |- draw_blind (bind sm9_z256_fn_rand _) =>
      apply draw_blind_rand_ignored; [reflexivity|intro]
  | |- draw_blind (bind _ _) => apply draw_blind_bind; [|intro]
  | |- draw_blind (ret _) => apply draw_blind_ret
  | |- draw_blind (emit _) => apply draw_blind_emit
  | |- draw_blind (pairing_m _ _) => unfold pairing_m
  | |- draw_blind (sm3_kdf_m _ _) => unfold sm3_kdf_m
  | |- draw_blind (if ?b then _ else _) => destruct b
  | |- draw_blind (match ?x with _ => _ end) => destruct x
  end.

Lemma sm9_kem_encrypt_body_kdf_only (mpk : SM9_ENC_MASTER_KEY) (id : bytes)
  (klen : Z) (ls : point * bytes) :
  kdf_only klen (sm9_kem_encrypt_body mpk id klen ls).
Proof. unfold sm9_kem_encrypt_body. repeat kdf_step. Qed.

Lemma sm9_kem_encrypt_kdf_only (mpk : SM9_ENC_MASTER_KEY) (id : bytes) (klen : Z) :
  kdf_only klen (sm9_kem_encrypt mpk id klen).
Proof.
  unfold sm9_kem_encrypt. apply kdf_only_bind.
  - apply kdf_only_with_draw_fuel. intro fuel.
    apply kdf_only_do_while. apply sm9_kem_encrypt_body_kdf_only.
  - intros [c|[C k]]; apply kdf_only_ret.
Qed.

(** The key [sm9_kem_encrypt] returns is the output of one KDF run. *)
Lemma sm9_kem_encrypt_key (mpk : SM9_ENC_MASTER_KEY) (id : bytes) (klen : Z)
  (s s' : state) (code : Z) (K : bytes) (C : point) :
  sm9_kem_encrypt mpk id klen s = Some ((code, Some (K, C)), s') ->
  exists z, K = sm3_kdf klen z.
Proof.
  unfold sm9_kem_encrypt, bind, with_draw_fuel.
  destruct (do_while _ _ _ _) as [[[c|[C0 k0]] s1]|] eqn:E; simpl;
    intro E2; try discriminate E2.
  injection E2 as _ <- _ _.
    apply (do_while_exit (fun ls => exists z, snd ls = sm3_kdf klen z)) in E; [exact E|].
    intros [C1 k1] s2 [C2 k2] s3. unfold sm9_kem_encrypt_body, bind, sm9_z256_fn_rand.
    destruct (st_draws s2) as [|r rest]; simpl; [discriminate|].
    destruct (mem_is_zero _ _); intro E3; try discriminate.
    injection E3; intros; subst. eexists. reflexivity.
Qed.

Lemma sm9_exch_step_1B_blind (mpk : SM9_EXCH_MASTER_KEY) (idA idB : bytes)
  (key : SM9_EXCH_KEY) (RA : point) (klen : Z) :
  draw_blind (sm9_exch_step_1B mpk idA idB key RA klen).
Proof.
  unfold sm9_exch_step_1B. apply draw_blind_bind.
  - apply draw_blind_with_draw_fuel. intro fuel. apply draw_blind_do_while.
    intros [RB sk]. unfold sm9_exch_step_1B_body. repeat blind_step.
  - intros [c|[RB sk]]; apply draw_blind_ret.
Qed.

(** C3: sm9_do_verify does not check its input.  For every signature, with
    any scalar [h] (0 and values of at least [N] included) and any point
    [S] (on the curve or not), the function runs both pairings and returns
    0 or 1 by the H2 comparison alone: it never returns the [-1] of a
    RangeError or an InvalidPoint. *)
Theorem sm9_do_verify_no_input_checks (mpk : SM9_SIGN_MASTER_KEY) (id : bytes)
  (sm3_ctx0 : sm3_ctx) (sig : SM9_SIGNATURE) (s : state) :
  sm9_do_verify mpk id sm3_ctx0 sig s =
  Some (let g := sm9_z256_pairing (sign_mpk_Ppubs mpk) SM9_Z256_MONT_P1 in
        let t := sm9_z256_fp12_pow g (sig_h sig) in
        let P := sm9_z256_twist_point_add_full
                   (sm9_z256_twist_point_mul_generator (sm9_z256_hash1 id SM9_HID_SIGN))
                   (sign_mpk_Ppubs mpk) in
        let u := sm9_z256_pairing P (sig_S sig) in
        let h2 := snd (sm9_hash2_step sm3_ctx0
                         (sm9_z256_fp12_to_bytes (sm9_z256_fp12_mul u t))) in
        if sm9_z256_fn_equ h2 (sig_h sig) then 1 else 0,
        mkst (st_draws s) (st_log s ++ [EvPairing; EvPairing])).
Proof.
  destruct s as [d l]. unfold sm9_do_verify, pairing_m, bind, emit, ret. simpl.
  destruct (sm9_hash2_step _ _) as [c h2]. simpl.
  rewrite <- app_assoc.
  destruct (sm9_z256_fn_equ h2 (sig_h sig)); reflexivity.
Qed.

(** C4 (amended): both ends of the encryption envelope derive
    [SM9_MAX_PLAINTEXT_SIZE + 32] key bytes, the size of their buffer [K],
    whatever the message length.  Every run of [sm9_do_encrypt] (whatever
    it returns) runs the KDF only with that [klen]; when it returns 1 it
    has XORed the [mlen] message bytes with the first [mlen] bytes of [K]
    and keyed the HMAC with the 32 bytes of [K] after them.
    [sm9_do_decrypt] returns -1 for [c2len > SM9_MAX_PLAINTEXT_SIZE]
    without any call, and otherwise runs the KDF exactly once, with that
    same [klen]. *)
Theorem sm9_envelope_klen_is_buffer_size (mpk : SM9_ENC_MASTER_KEY) (id inp : bytes)
  (key : SM9_ENC_KEY) (C1 : point) (c2 c3 : bytes) (s s2 : state) :
  (forall s0 res s1, sm9_do_encrypt mpk id inp s0 = Some (res, s1) ->
     exists new, st_log s1 = st_log s0 ++ new
                 /\ Forall (eq (SM9_MAX_PLAINTEXT_SIZE + 32)) (kdf_klens new))
  /\ (match sm9_do_encrypt mpk id inp s with
      | Some ((1, Some (_, c2', c3')), _) =>
          exists z,
            c2' = gmssl_memxor (sm3_kdf (SM9_MAX_PLAINTEXT_SIZE + 32) z) inp
                    (Z.of_nat (length inp))
            /\ c3' = sm3_hmac (sub_bytes (sm3_kdf (SM9_MAX_PLAINTEXT_SIZE + 32) z)
                                 (Z.of_nat (length inp)) SM3_HMAC_SIZE) c2'
      | _ => True
      end)
  /\ (SM9_MAX_PLAINTEXT_SIZE < Z.of_nat (length c2) ->
      sm9_do_decrypt key id C1 c2 c3 s2 = Some ((-1, None), s2))
  /\ (Z.of_nat (length c2) <= SM9_MAX_PLAINTEXT_SIZE ->
      exists res new,
        sm9_do_decrypt key id C1 c2 c3 s2 = Some (res, mkst (st_draws s2) (st_log s2 ++ new))
        /\ kdf_klens new = [SM9_MAX_PLAINTEXT_SIZE + 32]).
Proof.
  split; [|split; [|split]].
  - change (kdf_only (SM9_MAX_PLAINTEXT_SIZE + 32) (sm9_do_encrypt mpk id inp)).
    unfold sm9_do_encrypt. cbv zeta. apply kdf_only_bind.
    + apply sm9_kem_encrypt_kdf_only.
    + intros [code oK]. repeat kdf_step.
  - unfold sm9_do_encrypt. unfold bind at 1.
    destruct (sm9_kem_encrypt mpk id (SM9_MAX_PLAINTEXT_SIZE + 32) s)
      as [[[code oK] s1]|] eqn:E; [|exact I].
    destruct oK as [[K C]|]; destruct code as [|[p|p|]|p]; try exact I.
    destruct (sm9_kem_encrypt_key _ _ _ _ _ _ _ _ E) as [z ->].
    cbn. exists z. split; reflexivity.
  - intro Hc. unfold sm9_do_decrypt. rewrite (proj2 (Z.ltb_lt _ _) Hc). reflexivity.
  - intro Hc. destruct s2 as [d l]. unfold sm9_do_decrypt.
    rewrite (proj2 (Z.ltb_ge _ _) Hc).
    unfold sm9_kem_decrypt, pairing_m, sm3_kdf_m, sm3_hmac_m, bind, emit, ret. cbn.
    rewrite <- !app_assoc. cbn.
    destruct (mem_is_zero _ _); cbn.
    + eexists _, [EvPairing; EvKdf _]. split; reflexivity.
    + destruct (negb _); cbn.
      * eexists _, [EvPairing; EvKdf _; EvHmac]. rewrite <- !app_assoc. split; reflexivity.
      * eexists _, [EvPairing; EvKdf _; EvHmac]. rewrite <- !app_assoc. split; reflexivity.
Qed.

(** C5: after a restart the sign loop does not start afresh.  When the
    first draw [r1] gives [l = 0], the second pass raises the [w] of the
    first pass (not [g]) to the new draw [r2], and absorbs it into the
    context the first pass finished (not into a copy of the message
    context); the signature is built from that [h2]. *)
Theorem sm9_do_sign_restart (key : SM9_SIGN_KEY) (sm3_ctx0 : sm3_ctx)
  (r1 r2 : Z) (rest : list Z) (log : list event) :
  let g := sm9_z256_pairing (sign_key_Ppubs key) SM9_Z256_MONT_P1 in
  let w1 := sm9_z256_fp12_pow g r1 in
  let ctx1 := fst (sm9_hash2_step sm3_ctx0 (sm9_z256_fp12_to_bytes w1)) in
  let h1 := snd (sm9_hash2_step sm3_ctx0 (sm9_z256_fp12_to_bytes w1)) in
  let w2 := sm9_z256_fp12_pow w1 r2 in
  let h2 := snd (sm9_hash2_step ctx1 (sm9_z256_fp12_to_bytes w2)) in
  sm9_z256_fn_is_zero (sm9_z256_fn_sub r1 h1) = true ->
  sm9_z256_fn_is_zero (sm9_z256_fn_sub r2 h2) = false ->
  sm9_do_sign key sm3_ctx0 (mkst (r1 :: r2 :: rest) log)
  = Some ((1, Some {| sig_h := h2;
                      sig_S := sm9_z256_point_mul (sm9_z256_fn_sub r2 h2)
                                 (sign_key_ds key) |}),
          mkst rest (log ++ [EvPairing; EvRand r1; EvRand r2])).
Proof.
  intros g w1 ctx1 h1 w2 h2 Z1 Z2. subst g w1 ctx1 h1 w2 h2.
  unfold sm9_do_sign, pairing_m, with_draw_fuel, bind, emit, ret. cbn.
  unfold sm9_sign_body, bind, ret, sm9_z256_fn_rand. cbn.
  destruct (sm9_hash2_step sm3_ctx0 _) as [c1 k1] eqn:E1.
  cbn in Z1, Z2 |- *. rewrite Z1. cbn.
  destruct (sm9_hash2_step c1 _) as [c2 k2] eqn:E2.
  cbn in Z2 |- *. rewrite Z2. cbn.
  now rewrite <- !app_assoc.
Qed.

(** C6: when the derived key is all zero, [sm9_exch_step_2A] neither
    fails with KeyZero nor draws anything new: every pass of its loop
    recomputes the same pairings and the same KDF input from the fixed
    [rA], [RA] and [RB] and goes round again, so no amount of fuel lets it
    return. *)
Theorem sm9_exch_step_2A_spins (mpk : SM9_EXCH_MASTER_KEY) (idA idB : bytes)
  (key : SM9_EXCH_KEY) (rA : Z) (RA RB : point) (klen : Z) :
  let G1 := sm9_z256_fp12_pow
              (sm9_z256_pairing SM9_Z256_MONT_P2 (enc_mpk_Ppube mpk)) rA in
  let G2 := sm9_z256_pairing (enc_key_de key) RB in
  let G3 := sm9_z256_fp12_pow G2 rA in
  sm9_z256_point_is_on_curve RB = true ->
  mem_is_zero (sm3_kdf klen (sm9_exch_kdf_input idA idB RA RB G1 G2 G3)) klen = true ->
  forall (fuel : nat) (s : state),
    sm9_exch_step_2A mpk idA idB key rA RA RB klen fuel s = None.
Proof.
  intros G1 G2 G3 Hc Hz fuel s.
  unfold sm9_exch_step_2A, bind.
  assert (Hl : forall f sk s0,
    do_while f (sm9_exch_step_2A_body mpk idA idB key rA RA RB klen) sk s0 = None).
  { assert (Hb : forall sk s0, exists s1,
      sm9_exch_step_2A_body mpk idA idB key rA RA RB klen sk s0
      = Some (Again (sm3_kdf klen (sm9_exch_kdf_input idA idB RA RB G1 G2 G3)), s1)).
    { intros sk s0. unfold sm9_exch_step_2A_body. rewrite Hc.
      unfold pairing_m, sm3_kdf_m, bind, emit, ret. cbn.
      subst G1 G2 G3. rewrite Hz. eexists. reflexivity. }
    induction f as [|f IH]; intros sk s0; [reflexivity|].
    cbn [do_while]. unfold bind. destruct (Hb sk s0) as [s1 ->]. apply IH. }
  now rewrite Hl.
Qed.

(** C7: the key exchange does not use the values it draws.  Step 1A
    returns [RA = SM9_TEST_rA * QB] and [rA = SM9_TEST_rA] whatever the
    draw; step 1B gives the same return code, [RB] and [sk] for any two
    draw sequences of the same length, so runs that draw differently do
    not produce different [RA] or [RB]. *)
Theorem sm9_exch_draws_unused :
  (forall (mpk : SM9_EXCH_MASTER_KEY) (idB : bytes) (r : Z) (rest : list Z)
          (log : list event),
     sm9_exch_step_1A mpk idB (mkst (r :: rest) log)
     = Some ((1, Some (sm9_z256_point_mul SM9_TEST_rA
                         (sm9_z256_point_add
                            (sm9_z256_point_mul (sm9_z256_hash1 idB SM9_HID_EXCH)
                               SM9_Z256_MONT_P1)
                            (enc_mpk_Ppube mpk)),
                       SM9_TEST_rA)),
             mkst rest (log ++ [EvRand r])))
  /\ (forall (mpk : SM9_EXCH_MASTER_KEY) (idA idB : bytes) (key : SM9_EXCH_KEY)
             (RA : point) (klen : Z) (draws1 draws2 : list Z) (log : list event),
        length draws1 = length draws2 ->
        option_map fst (sm9_exch_step_1B mpk idA idB key RA klen (mkst draws1 log))
        = option_map fst (sm9_exch_step_1B mpk idA idB key RA klen (mkst draws2 log))).
Proof.
  split.
  - intros. reflexivity.
  - intros mpk idA idB key RA klen d1 d2 log Hd.
    pose proof (sm9_exch_step_1B_blind mpk idA idB key RA klen
                  (mkst d1 log) (mkst d2 log) (conj Hd eq_refl)) as B.
    destruct (sm9_exch_step_1B _ _ _ _ _ _ (mkst d1 log)) as [[a1 t1]|],
             (sm9_exch_step_1B _ _ _ _ _ _ (mkst d2 log)) as [[a2 t2]|];
      try contradiction; simpl; [now destruct B as [-> _]|reflexivity].
Qed.

(** C8: [sm9_ciphertext_from_der] accepts only a SEQUENCE whose INTEGER
    EnType is 0, whose BIT STRING C1 carries exactly 65 octets that decode
    to a point, whose first OCTET STRING (C3) has exactly 32 bytes, and
    whose contents end with the second OCTET STRING (C2); every other input
    (an EnType of 1 among them) is rejected. *)
Theorem sm9_ciphertext_from_der_accepts_only (inp : bytes) (C1 : point)
  (c2 c3 rest : bytes) :
  sm9_ciphertext_from_der inp = (1, Some (C1, c2, c3, rest)) ->
  exists d d1 d2 d3 c1,
    asn1_sequence_from_der inp = DOk d rest
    /\ asn1_int_from_der d = DOk SM9_ENC_TYPE_XOR d1
    /\ asn1_bit_octets_from_der d1 = DOk c1 d2
    /\ length c1 = 65%nat
    /\ sm9_z256_point_from_uncompressed_octets c1 = Some C1
    /\ asn1_octet_string_from_der d2 = DOk c3 d3
    /\ length c3 = 32%nat
    /\ asn1_octet_string_from_der d3 = DOk c2 [].
Proof.
  unfold sm9_ciphertext_from_der.
  destruct (asn1_sequence_from_der inp) as [d r0| |] eqn:E0; try discriminate.
  destruct (asn1_int_from_der d) as [en d1| |] eqn:E1; try discriminate.
  destruct (asn1_bit_octets_from_der d1) as [c1 d2| |] eqn:E2; try discriminate.
  destruct (asn1_octet_string_from_der d2) as [c3' d3| |] eqn:E3; try discriminate.
  destruct (asn1_octet_string_from_der d3) as [c2' d4| |] eqn:E4; try discriminate.
  unfold asn1_length_is_zero, SM3_HMAC_SIZE.
  destruct (Z.of_nat (length d4) =? 0) eqn:L; cbn [negb]; [|discriminate].
  destruct (en =? SM9_ENC_TYPE_XOR) eqn:En; cbn [negb]; [|discriminate].
  destruct (Z.of_nat (length c1) =? 65) eqn:Lc1; cbn [negb]; [|discriminate].
  destruct (Z.of_nat (length c3') =? 32) eqn:Lc3; cbn [negb]; [|discriminate].
  destruct (sm9_z256_point_from_uncompressed_octets c1) as [P|] eqn:EP; [|discriminate].
  intro E. injection E as <- <- <- <-.
  apply Z.eqb_eq in L, En, Lc1, Lc3. subst en.
  destruct d4; [|simpl in L; lia].
  exists d, d1, d2, d3, c1. repeat split; auto; lia.
Qed.

(** C10: with [out == NULL], [sm9_decrypt] returns 1 and the length of
    C2 as soon as the ciphertext parses with nothing after it, and leaves
    the state as it was: no pairing, no KDF and no HMAC has run. *)
Theorem sm9_decrypt_length_query (key : SM9_ENC_KEY) (id inp : bytes) (C1 : point)
  (c2 c3 : bytes) (s : state) :
  sm9_ciphertext_from_der inp = (1, Some (C1, c2, c3, [])) ->
  sm9_decrypt key id inp false s = Some ((1, Some (Z.of_nat (length c2)), None), s).
Proof. intro E. unfold sm9_decrypt. rewrite E. reflexivity. Qed.

End Protocol.

(** ** The DER codecs, over a primitive layer that meets its contract *)

Lemma asn1_type_to_der_length (tag : Z) (d : bytes) :
  (length (asn1_type_to_der tag d) <= 6 + length d)%nat.
Proof.
  unfold asn1_type_to_der. cbn [length]. rewrite length_app.
  pose proof (asn1_length_to_der_length (Z.of_nat (length d))). lia.
Qed.

Lemma sub_bytes_whole (b : bytes) (n : Z) :
  Z.of_nat (length b) = n -> sub_bytes b 0 n = b.
Proof.
  intro Hn. unfold sub_bytes. simpl. apply firstn_all2. lia.
Qed.

Lemma asn1_sequence_roundtrip' (len : Z) (body rest : bytes) :
  len = Z.of_nat (length body) -> len < 2 ^ 32 ->
  asn1_sequence_from_der ((asn1_sequence_header_to_der len ++ body) ++ rest)
  = DOk body rest.
Proof.
  intros -> Hb. rewrite <- app_assoc. now apply asn1_sequence_roundtrip.
Qed.

Section Codec.
Context `{SM9Contract}.

(** C9 (amended): the DER codecs round-trip, and each decoder hands back
    the bytes that follow the top-level SEQUENCE instead of rejecting
    them: decoding [encode(x) ++ t] gives [x] and [t], for a signature
    with [h] in [[1, N-1]] and [S] on the curve, and for a ciphertext with
    [C1] on the curve, a 32-byte [C3] and a [C2] shorter than [2^31]
    bytes.  Trailing bytes are refused only by the callers that test the
    rest for [asn1_length_is_zero]: [sm9_verify_finish] and [sm9_decrypt]
    return -1 for such an encoding followed by any non-empty [t], without
    a call. *)
Theorem sm9_der_roundtrip_keeps_trailing :
  (forall (sig : SM9_SIGNATURE) (t : bytes),
     1 <= sig_h sig <= SM9_Z256_N - 1 ->
     sm9_z256_point_is_on_curve (sig_S sig) = true ->
     sm9_signature_from_der (sm9_signature_to_der sig ++ t) = (1, Some (sig, t)))
  /\ (forall (C1 : point) (c2 c3 t : bytes),
     sm9_z256_point_is_on_curve C1 = true ->
     length c3 = 32%nat ->
     Z.of_nat (length c2) < 2 ^ 31 ->
     sm9_ciphertext_from_der (sm9_ciphertext_to_der C1 c2 c3 ++ t)
     = (1, Some (C1, c2, c3, t)))
  /\ (forall (ctx : sm3_ctx) (sig : SM9_SIGNATURE) (mpk : SM9_SIGN_MASTER_KEY)
      (id t : bytes) (s : state),
     1 <= sig_h sig <= SM9_Z256_N - 1 ->
     sm9_z256_point_is_on_curve (sig_S sig) = true ->
     t <> [] ->
     sm9_verify_finish ctx (sm9_signature_to_der sig ++ t) mpk id s = Some (-1, s))
  /\ (forall (key : SM9_ENC_KEY) (id : bytes) (C1 : point) (c2 c3 t : bytes)
      (out_given : bool) (s : state),
     sm9_z256_point_is_on_curve C1 = true ->
     length c3 = 32%nat ->
     Z.of_nat (length c2) < 2 ^ 31 ->
     t <> [] ->
     sm9_decrypt key id (sm9_ciphertext_to_der C1 c2 c3 ++ t) out_given s
     = Some ((-1, None, None), s)).
Proof.
  assert (Hs : forall (sig : SM9_SIGNATURE) (t : bytes),
     1 <= sig_h sig <= SM9_Z256_N - 1 ->
     sm9_z256_point_is_on_curve (sig_S sig) = true ->
     sm9_signature_from_der (sm9_signature_to_der sig ++ t) = (1, Some (sig, t))).
  { intros [h S] t Hh HS. cbn [sig_h sig_S] in Hh, HS.
    destruct (fn_bytes_roundtrip h) as [Fh Lh]; [lia|].
    destruct (point_octets_roundtrip S HS) as [FS LS].
    unfold sm9_signature_to_der, sm9_signature_from_der. cbn [sig_h sig_S].
    set (hbuf := sm9_z256_fn_to_bytes h) in *.
    set (Sbuf := sm9_z256_point_to_uncompressed_octets S) in *.
    pose proof (asn1_type_to_der_length ASN1_TAG_OCTET_STRING hbuf).
    pose proof (asn1_type_to_der_length ASN1_TAG_BIT_STRING (0 :: Sbuf)).
    unfold asn1_octet_string_to_der, asn1_bit_octets_to_der in *.
    cbn [length] in *.
    rewrite asn1_sequence_roundtrip' by (rewrite ?length_app; lia).
    unfold asn1_octet_string_from_der.
    rewrite asn1_type_roundtrip by lia.
    fold (asn1_bit_octets_to_der Sbuf).
    rewrite <- (app_nil_r (asn1_bit_octets_to_der Sbuf)).
    rewrite asn1_bit_octets_roundtrip by lia.
    rewrite Lh, LS, Fh, FS. reflexivity. }
  assert (Hc : forall (C1 : point) (c2 c3 t : bytes),
     sm9_z256_point_is_on_curve C1 = true ->
     length c3 = 32%nat ->
     Z.of_nat (length c2) < 2 ^ 31 ->
     sm9_ciphertext_from_der (sm9_ciphertext_to_der C1 c2 c3 ++ t)
     = (1, Some (C1, c2, c3, t))).
  { intros C1 c2 c3 t HC Lc3 Lc2.
    destruct (point_octets_roundtrip C1 HC) as [FC LC].
    unfold sm9_ciphertext_to_der, sm9_ciphertext_from_der, SM3_HMAC_SIZE.
    rewrite (sub_bytes_whole c3 32) by lia.
    set (c1 := sm9_z256_point_to_uncompressed_octets C1) in *.
    pose proof (asn1_type_to_der_length ASN1_TAG_BIT_STRING (0 :: c1)%list).
    pose proof (asn1_type_to_der_length ASN1_TAG_OCTET_STRING c3).
    pose proof (asn1_type_to_der_length ASN1_TAG_OCTET_STRING c2).
    unfold asn1_bit_octets_to_der, asn1_octet_string_to_der in *.
    assert (Li : length (asn1_int_to_der SM9_ENC_TYPE_XOR) = 3%nat) by reflexivity.
    cbn [length] in *.
    rewrite asn1_sequence_roundtrip' by (rewrite ?length_app; lia).
    unfold SM9_ENC_TYPE_XOR at 2. rewrite asn1_int_zero_roundtrip.
    fold (asn1_bit_octets_to_der c1).
    rewrite asn1_bit_octets_roundtrip by lia.
    unfold asn1_octet_string_from_der.
    rewrite asn1_type_roundtrip by lia.
    rewrite <- (app_nil_r (asn1_type_to_der ASN1_TAG_OCTET_STRING c2)).
    rewrite asn1_type_roundtrip by lia.
    rewrite LC, Lc3, FC. reflexivity. }
  split; [exact Hs|]. split; [exact Hc|]. split.
  - intros ctx sig mpk id t s Hh HS Ht. unfold sm9_verify_finish.
    rewrite Hs by assumption. destruct t as [|b t]; [contradiction|reflexivity].
  - intros key id C1 c2 c3 t out_given s HC Lc3 Lc2 Ht. unfold sm9_decrypt.
    rewrite Hc by assumption. destruct t as [|b t]; [contradiction|reflexivity].
Qed.

End Codec.

(** ** Runs on the small instance *)

Module ToyRuns.
Import Toy.

Lemma N_pos : N <> 0.
Proof. unfold N. lia. Qed.

(** The small instance meets the contract of the primitive layer. *)
#[export] Instance contract : SM9Contract.
Proof.
  pose proof N_pos as HN.
  constructor; cbn -[be_bytes_n be_value N fn_from_bytes point_from point_to].
  - unfold N. lia.
  - intro a. rewrite Z.mul_1_r, Z.mod_mod by exact HN.
    rewrite (Z.mod_small 1 N) by (unfold N; lia). now rewrite Z.mul_1_l.
  - intros Q a P. rewrite Z.mul_mod_idemp_r, Z.mul_mod_idemp_l by exact HN.
    f_equal. ring.
  - intros a b P. rewrite Z.mul_mod_idemp_r by exact HN. f_equal. ring.
  - intros a b. now rewrite <- Z.add_mod by exact HN.
  - intros x a b. rewrite Z.mul_mod_idemp_l by exact HN. f_equal. ring.
  - intros x a b. rewrite <- Z.add_mod by exact HN. f_equal. ring.
  - intro a. rewrite (Z.mod_small (1 * 1)) by (unfold N; lia).
    rewrite !Z.mul_1_l. now rewrite Z.mod_mod by exact HN.
  - intros h Hh. rewrite be_bytes_n_length. split; [|reflexivity].
    unfold fn_from_bytes. rewrite be_bytes_n_length.
    rewrite be_value_be_bytes_n_small by (unfold N in Hh; simpl; lia).
    replace (h <? N) with true by (symmetry; apply Z.ltb_lt; lia). reflexivity.
  - intros P HP. apply andb_true_iff in HP as [H0 H1].
    apply Z.leb_le in H0. apply Z.ltb_lt in H1.
    unfold point_to, point_from. cbn [length].
    rewrite length_app, !be_bytes_n_length. split; [|reflexivity].
    rewrite firstn_app_exact, skipn_app_exact by (now rewrite be_bytes_n_length).
    rewrite !be_value_be_bytes_n_small by (unfold N in H1; simpl; lia).
    replace (P <? N) with true by (symmetry; apply Z.ltb_lt; lia). reflexivity.
Qed.

(** Closes [l = r] by evaluating [l] in the virtual machine, without
    normalising the instance inside the types. *)
Ltac vm_refl := match goal with |- ?l = ?r => exact (@eq_refl _ l <: l = r) end.

(** C1: the sign/verify round trip fails after a restart of the sign
    loop.  With [ks = 5], the identity "A", its KGC-derived key and the
    message "M": when the random source returns 65 and then 3, the first
    pass has [l = 0], the loop restarts, and [sm9_do_verify] rejects the
    signature (returns 0); when it returns 3 at once, the signature
    verifies. *)
Theorem sign_verify_fails_after_restart :
  alice_sign_key = sm9_sign_master_key_extract_key sign_msk alice
  /\ sm9_do_sign alice_sign_key ctx_M (mkst [65; 3] [])
     = Some ((1, Some {| sig_h := 74; sig_S := 87 |}),
             mkst [] [EvPairing; EvRand 65; EvRand 3])
  /\ sm9_do_verify sign_msk alice ctx_M {| sig_h := 74; sig_S := 87 |} (mkst [] [])
     = Some (0, mkst [] [EvPairing; EvPairing])
  /\ sm9_do_sign alice_sign_key ctx_M (mkst [3] [])
     = Some ((1, Some {| sig_h := 69; sig_S := 51 |}), mkst [] [EvPairing; EvRand 3])
  /\ sm9_do_verify sign_msk alice ctx_M {| sig_h := 69; sig_S := 51 |} (mkst [] [])
     = Some (1, mkst [] [EvPairing; EvPairing]).
Proof. refine (conj eq_refl (conj _ (conj _ (conj _ _)))); vm_refl. Qed.

(** C2: the encrypt/decrypt round trip fails after a restart of the KEM
    loop.  With [ke = 7], the identity "N", its KGC-derived key and a
    3-byte message: when the random source returns 2 and then 3, the
    first KEM pass derives an all-zero key and restarts, and
    [sm9_decrypt] of the ciphertext fails (returns -1) on the MAC check;
    when the source returns 3 at once, it returns the message. *)
Theorem encrypt_decrypt_fails_after_restart :
  kate_enc_key = sm9_enc_master_key_extract_key enc_msk kate
  /\ Z.of_nat (length plain) <= SM9_MAX_PLAINTEXT_SIZE
  /\ sm9_encrypt enc_msk kate plain (mkst [2; 3] [])
     = Some ((1, Some toy_ct_restart),
             mkst [] [EvRand 2; EvPairing; EvKdf 48; EvRand 3; EvPairing;
                      EvKdf 48; EvHmac])
  /\ sm9_decrypt kate_enc_key kate toy_ct_restart true (mkst [] [])
     = Some ((-1, Some 3, None), mkst [] [EvPairing; EvKdf 48; EvHmac])
  /\ sm9_encrypt enc_msk kate plain (mkst [3] [])
     = Some ((1, Some toy_ct), mkst [] [EvRand 3; EvPairing; EvKdf 48; EvHmac])
  /\ sm9_decrypt kate_enc_key kate toy_ct true (mkst [] [])
     = Some ((1, Some 3, Some plain), mkst [] [EvPairing; EvKdf 48; EvHmac]).
Proof.
  split; [reflexivity|]. split; [vm_compute; discriminate|].
  repeat match goal with |- _ /\ _ => split end; vm_refl.
Qed.

(** C4, counterexample: for the 3-byte message, [mlen + 32 = 35], yet the
    only KDF run of [sm9_do_encrypt] has [klen = 48 = SM9_MAX_PLAINTEXT_SIZE
    + 32]; [sm9_do_decrypt] of a 3-byte C2 runs the KDF with 48 too. *)
Lemma envelope_klen_not_mlen_plus_32 :
  Z.of_nat (length plain) + 32 = 35
  /\ (exists res s', sm9_do_encrypt enc_msk kate plain (mkst [3] []) = Some (res, s')
                     /\ kdf_klens (st_log s') = [48])
  /\ (exists res s', sm9_do_decrypt kate_enc_key kate 35 [166; 165; 164] toy_c3
                       (mkst [] []) = Some (res, s')
                     /\ kdf_klens (st_log s') = [48]).
Proof.
  split; [reflexivity|].
  split; eexists _, _; (split; [vm_compute; reflexivity|]); vm_compute; reflexivity.
Qed.

(** C5, witness: the draws 65 then 3 meet the hypotheses of
    [sm9_do_sign_restart]; the [h] it signs with (74) is not the [h] of
    [w = g^3] absorbed into the message context (69). *)
Lemma sm9_do_sign_restart_witness :
  sm9_do_sign alice_sign_key ctx_M (mkst [65; 3] [])
  = Some ((1, Some {| sig_h := 74; sig_S := 87 |}),
          mkst [] [EvPairing; EvRand 65; EvRand 3])
  /\ snd (sm9_hash2_step ctx_M
            (sm9_z256_fp12_to_bytes
               (sm9_z256_fp12_pow
                  (sm9_z256_pairing (sign_key_Ppubs alice_sign_key) SM9_Z256_MONT_P1) 3)))
     = 69.
Proof.
  split.
  - refine (eq_trans (sm9_do_sign_restart alice_sign_key ctx_M 65 3 [] [] eq_refl eq_refl) _).
    vm_refl.
  - vm_compute. reflexivity.
Defined.

(** C6, witness: with [RB = 4], [rA = 55] and [klen = 16] the derived key
    is all zero, and step 2A does not return within 1000 passes. *)
Lemma sm9_exch_step_2A_spins_witness :
  sm9_z256_point_is_on_curve 4 = true
  /\ sm3_kdf 16 (sm9_exch_kdf_input alice kate 5 4
       (sm9_z256_fp12_pow (sm9_z256_pairing SM9_Z256_MONT_P2 (enc_mpk_Ppube enc_msk)) 55)
       (sm9_z256_pairing (enc_key_de kate_enc_key) 4)
       (sm9_z256_fp12_pow (sm9_z256_pairing (enc_key_de kate_enc_key) 4) 55))
     = repeat 0 16
  /\ sm9_exch_step_2A enc_msk alice kate kate_enc_key 55 5 4 16 1000 (mkst [] []) = None.
Proof.
  split; [reflexivity|]. split; [vm_compute; reflexivity|].
  apply (sm9_exch_step_2A_spins enc_msk alice kate kate_enc_key 55 5 4 16);
    vm_compute; reflexivity.
Defined.

(** C7, witness: the draws 1 and 2 give the same [RA] in step 1A and the
    same [RB] and [sk] in step 1B. *)
Lemma sm9_exch_draws_unused_witness :
  option_map fst (sm9_exch_step_1A enc_msk kate (mkst [1] []))
  = option_map fst (sm9_exch_step_1A enc_msk kate (mkst [2] []))
  /\ option_map fst (sm9_exch_step_1B enc_msk alice kate kate_enc_key 35 16 (mkst [1] []))
     = option_map fst (sm9_exch_step_1B enc_msk alice kate kate_enc_key 35 16 (mkst [2] [])).
Proof.
  split.
  - rewrite (proj1 sm9_exch_draws_unused enc_msk kate 1 [] []).
    rewrite (proj1 sm9_exch_draws_unused enc_msk kate 2 [] []).
    reflexivity.
  - exact (proj2 sm9_exch_draws_unused enc_msk alice kate kate_enc_key 35 16 [1] [2] []
             eq_refl).
Defined.

(** C8, witness: the ciphertext of [plain] is accepted and has the
    layout the theorem describes. *)
Lemma sm9_ciphertext_from_der_accepts_only_witness :
  exists d d1 d2 d3 c1,
    asn1_sequence_from_der toy_ct = DOk d []
    /\ asn1_int_from_der d = DOk SM9_ENC_TYPE_XOR d1
    /\ asn1_bit_octets_from_der d1 = DOk c1 d2
    /\ length c1 = 65%nat
    /\ sm9_z256_point_from_uncompressed_octets c1 = Some 35
    /\ asn1_octet_string_from_der d2 = DOk toy_c3 d3
    /\ length toy_c3 = 32%nat
    /\ asn1_octet_string_from_der d3 = DOk [166; 165; 164] [].
Proof.
  apply (@sm9_ciphertext_from_der_accepts_only prims toy_ct 35 [166; 165; 164] toy_c3 []).
  vm_compute. reflexivity.
Defined.

(** C9, counterexample: the ciphertext of [plain] followed by one more
    byte decodes with return code 1, the byte handed back as the rest; so
    does a signature followed by one more byte. *)
Lemma der_decoders_accept_trailing_bytes :
  sm9_ciphertext_from_der (toy_ct ++ [0])
  = (1, Some (35, [166; 165; 164], toy_c3, [0]))
  /\ sm9_signature_from_der (sm9_signature_to_der toy_sig ++ [0])
     = (1, Some (toy_sig, [0])).
Proof. split; vm_refl. Qed.

(** C9, witness: the round trip on the small instance, which meets the
    contract, and the two callers refusing the same encodings followed by
    one more byte. *)
Lemma sm9_der_roundtrip_keeps_trailing_witness :
  sm9_signature_from_der (sm9_signature_to_der toy_sig ++ [9; 9])
  = (1, Some (toy_sig, [9; 9]))
  /\ sm9_ciphertext_from_der (sm9_ciphertext_to_der 35 [166; 165; 164] toy_c3 ++ [9])
     = (1, Some (35, [166; 165; 164], toy_c3, [9]))
  /\ sm9_verify_finish ctx_M (sm9_signature_to_der toy_sig ++ [9]) sign_msk alice
       (mkst [] [])
     = Some (-1, mkst [] [])
  /\ sm9_decrypt kate_enc_key kate (sm9_ciphertext_to_der 35 [166; 165; 164] toy_c3 ++ [9])
       true (mkst [] [])
     = Some ((-1, None, None), mkst [] []).
Proof.
  split; [|split; [|split]].
  - apply (proj1 (@sm9_der_roundtrip_keeps_trailing prims contract) toy_sig [9; 9]);
      vm_compute; [split; discriminate|reflexivity].
  - apply (proj1 (proj2 (@sm9_der_roundtrip_keeps_trailing prims contract))
             35 [166; 165; 164] toy_c3 [9]);
      vm_compute; reflexivity.
  - apply (proj1 (proj2 (proj2 (@sm9_der_roundtrip_keeps_trailing prims contract)))
             ctx_M toy_sig sign_msk alice [9] (mkst [] []));
      vm_compute; [split; discriminate|reflexivity|discriminate].
  - apply (proj2 (proj2 (proj2 (@sm9_der_roundtrip_keeps_trailing prims contract)))
             kate_enc_key kate 35 [166; 165; 164] toy_c3 [9] true (mkst [] []));
      vm_compute; [reflexivity|reflexivity|reflexivity|discriminate].
Defined.

(** C10, witness: the length query on the ciphertext of [plain]. *)
Lemma sm9_decrypt_length_query_witness :
  sm9_decrypt kate_enc_key kate toy_ct false (mkst [] [])
  = Some ((1, Some 3, None), mkst [] []).
Proof.
  exact (sm9_decrypt_length_query kate_enc_key kate toy_ct 35 [166; 165; 164] toy_c3
           (mkst [] []) eq_refl).
Defined.

End ToyRuns.

(** ** Further properties of the protocol layer *)

Lemma bytes_eqb_refl (a : bytes) : bytes_eqb a a = true.
Proof. induction a as [|x a IH]; simpl; [reflexivity|]. now rewrite Z.eqb_refl, IH. Qed.

Lemma bytes_eqb_true (a b : bytes) : bytes_eqb a b = true -> a = b.
Proof.
  revert b; induction a as [|x a IH]; intros [|y b]; simpl; try discriminate; [reflexivity|].
  intro E. apply andb_true_iff in E as [E1 E2]. apply Z.eqb_eq in E1. subst y.
  now rewrite (IH b E2).
Qed.

Lemma gmssl_memxor_length (a b : bytes) (n : Z) :
  0 <= n -> (Z.to_nat n <= length a)%nat -> length b = Z.to_nat n ->
  length (gmssl_memxor a b n) = Z.to_nat n.
Proof.
  intros Hn Ha Hb. unfold gmssl_memxor. rewrite length_map, length_combine, !length_firstn.
  lia.
Qed.

Lemma gmssl_memxor_involutive (k m : bytes) (n : Z) :
  (Z.to_nat n <= length k)%nat -> length m = Z.to_nat n ->
  gmssl_memxor k (gmssl_memxor k m n) n = m.
Proof.
  unfold gmssl_memxor. generalize (Z.to_nat n) as t. intros t.
  revert k m; induction t as [|t IH]; intros k m Hk Hm.
  - destruct m; [reflexivity|discriminate].
  - destruct k as [|x k]; [simpl in Hk; lia|]. destruct m as [|y m]; [discriminate|].
    simpl in Hk, Hm |- *. f_equal.
    + rewrite <- Z.lxor_assoc, Z.lxor_nilpotent, Z.lxor_0_l. reflexivity.
    + apply IH; lia.
Qed.

Lemma sub_bytes_length (b : bytes) (off len : Z) :
  0 <= off -> 0 <= len -> (Z.to_nat off + Z.to_nat len <= length b)%nat ->
  length (sub_bytes b off len) = Z.to_nat len.
Proof.
  intros Ho Hl Hb. unfold sub_bytes. rewrite length_firstn, length_skipn. lia.
Qed.

(** The exponent identity behind the pairing checks: with
    [(h1 + k) d = k (mod N)], [(h1 + k) (x d) = k x (mod N)]. *)
Lemma key_relation_mul (N h1 k d x : Z) :
  N <> 0 -> ((h1 + k) * d) mod N = k mod N ->
  ((h1 + k) * (x * d)) mod N = (k * x) mod N.
Proof.
  intros HN Hr.
  replace ((h1 + k) * (x * d)) with (x * ((h1 + k) * d)) by ring.
  rewrite Z.mul_mod, Hr, <- Z.mul_mod by exact HN. f_equal. ring.
Qed.

Section Extras.
Context {Prm : SM9Prims} {Hctr : SM9Contract} {Hext : SM9ContractExt}.

Local Abbreviation base := (sm9_z256_pairing SM9_Z256_MONT_P2 SM9_Z256_MONT_P1).

Lemma N_nonzero : SM9_Z256_N <> 0.
Proof. pose proof N_gt_1. lia. Qed.

Lemma pow_base_congr (a b : Z) :
  a mod SM9_Z256_N = b mod SM9_Z256_N ->
  sm9_z256_fp12_pow base a = sm9_z256_fp12_pow base b.
Proof. intro E. now rewrite fp12_pow_mod, E, <- fp12_pow_mod. Qed.

Lemma pairing_gen_mul (a b : Z) :
  sm9_z256_pairing (sm9_z256_twist_point_mul_generator a)
    (sm9_z256_point_mul b SM9_Z256_MONT_P1)
  = sm9_z256_fp12_pow base (a * b).
Proof. now rewrite pairing_point_mul, pairing_generator, fp12_pow_pow. Qed.

Lemma pairing_P2_mul (a : Z) :
  sm9_z256_pairing SM9_Z256_MONT_P2 (sm9_z256_point_mul a SM9_Z256_MONT_P1)
  = sm9_z256_fp12_pow base a.
Proof. now rewrite pairing_point_mul. Qed.

Lemma sign_exponent (N h1 ks d r h : Z) :
  N <> 0 -> ((h1 + ks) * d) mod N = ks mod N ->
  ((h1 + ks) * (((r - h) mod N) * d) + ks * h) mod N = (ks * r) mod N.
Proof.
  intros HN Hr.
  rewrite Z.add_mod, key_relation_mul, Z.mul_mod_idemp_r, <- Z.add_mod by assumption.
  f_equal. ring.
Qed.

(** The [w] of verification (B8) equals the [w] of signing (A3). *)
Lemma verify_w (ks d h1 r h : Z) :
  ((h1 + ks) * d) mod SM9_Z256_N = ks mod SM9_Z256_N ->
  sm9_z256_fp12_mul
    (sm9_z256_pairing
       (sm9_z256_twist_point_add_full (sm9_z256_twist_point_mul_generator h1)
          (sm9_z256_twist_point_mul_generator ks))
       (sm9_z256_point_mul (sm9_z256_fn_sub r h)
          (sm9_z256_point_mul d SM9_Z256_MONT_P1)))
    (sm9_z256_fp12_pow
       (sm9_z256_pairing (sm9_z256_twist_point_mul_generator ks) SM9_Z256_MONT_P1) h)
  = sm9_z256_fp12_pow
      (sm9_z256_pairing (sm9_z256_twist_point_mul_generator ks) SM9_Z256_MONT_P1) r.
Proof.
  intro Hr. unfold sm9_z256_fn_sub.
  rewrite twist_add_generator, point_mul_mul, pairing_gen_mul, pairing_generator,
    !fp12_pow_pow, fp12_mul_pow.
  apply pow_base_congr. apply sign_exponent; [exact N_nonzero|exact Hr].
Qed.

(** A run of [sm9_do_sign] whose first draw does not restart the loop. *)
Lemma sm9_do_sign_first_pass (key : SM9_SIGN_KEY) (ctx : sm3_ctx) (r : Z)
  (rest : list Z) (log : list event) :
  let g := sm9_z256_pairing (sign_key_Ppubs key) SM9_Z256_MONT_P1 in
  let h := snd (sm9_hash2_step ctx (sm9_z256_fp12_to_bytes (sm9_z256_fp12_pow g r))) in
  sm9_z256_fn_is_zero (sm9_z256_fn_sub r h) = false ->
  sm9_do_sign key ctx (mkst (r :: rest) log)
  = Some ((1, Some {| sig_h := h;
                      sig_S := sm9_z256_point_mul (sm9_z256_fn_sub r h) (sign_key_ds key) |}),
          mkst rest (log ++ [EvPairing; EvRand r])).
Proof.
  intros g h Hl.
  unfold sm9_do_sign, pairing_m, with_draw_fuel, bind, emit, ret. cbn.
  unfold sm9_sign_body, bind, ret, sm9_z256_fn_rand. cbn.
  subst h g. destruct (sm9_hash2_step ctx _) as [c1 k1] eqn:E1.
  cbn in Hl |- *. rewrite Hl. cbn. now rewrite <- !app_assoc.
Qed.

(** [sm9_do_verify] accepts the signature that pass produced. *)
Lemma sm9_do_verify_accepts (mpk : SM9_SIGN_MASTER_KEY) (key : SM9_SIGN_KEY)
  (id : bytes) (ks d : Z) (ctx : sm3_ctx) (r : Z) (s : state) :
  let g := sm9_z256_pairing (sign_key_Ppubs key) SM9_Z256_MONT_P1 in
  let h := snd (sm9_hash2_step ctx (sm9_z256_fp12_to_bytes (sm9_z256_fp12_pow g r))) in
  sign_mpk_Ppubs mpk = sm9_z256_twist_point_mul_generator ks ->
  sign_key_Ppubs key = sign_mpk_Ppubs mpk ->
  sign_key_ds key = sm9_z256_point_mul d SM9_Z256_MONT_P1 ->
  ((sm9_z256_hash1 id SM9_HID_SIGN + ks) * d) mod SM9_Z256_N = ks mod SM9_Z256_N ->
  sm9_do_verify mpk id ctx
    {| sig_h := h; sig_S := sm9_z256_point_mul (sm9_z256_fn_sub r h) (sign_key_ds key) |} s
  = Some (1, mkst (st_draws s) (st_log s ++ [EvPairing; EvPairing])).
Proof.
  intros g h HP HK HD Hr. destruct s as [dr lg].
  unfold sm9_do_verify, pairing_m, bind, emit, ret. cbn.
  rewrite HD, HP, verify_w by exact Hr.
  subst h g. rewrite HK, HP.
  set (q := sm9_hash2_step ctx _). destruct q as [c1 k1]. cbn.
  unfold sm9_z256_fn_equ. rewrite Z.eqb_refl. cbn. now rewrite <- app_assoc.
Qed.

(** X1: signing and verification agree.  For a master key [Ppub-s = ks P2]
    and a signing key [(Ppub-s, d P1)] with [(H1(ID, hid) + ks) d = ks
    (mod N)], a run of [sm9_do_sign] whose first draw [r] does not restart
    the loop returns a signature, and [sm9_do_verify] of that signature
    over the same message context returns 1. *)
Theorem sm9_sign_verify_roundtrip (mpk : SM9_SIGN_MASTER_KEY) (key : SM9_SIGN_KEY)
  (id : bytes) (ks d : Z) (ctx : sm3_ctx) (r : Z) (rest : list Z) (log : list event) :
  let g := sm9_z256_pairing (sign_key_Ppubs key) SM9_Z256_MONT_P1 in
  let h := snd (sm9_hash2_step ctx (sm9_z256_fp12_to_bytes (sm9_z256_fp12_pow g r))) in
  sign_mpk_Ppubs mpk = sm9_z256_twist_point_mul_generator ks ->
  sign_key_Ppubs key = sign_mpk_Ppubs mpk ->
  sign_key_ds key = sm9_z256_point_mul d SM9_Z256_MONT_P1 ->
  ((sm9_z256_hash1 id SM9_HID_SIGN + ks) * d) mod SM9_Z256_N = ks mod SM9_Z256_N ->
  sm9_z256_fn_is_zero (sm9_z256_fn_sub r h) = false ->
  exists sig,
    sm9_do_sign key ctx (mkst (r :: rest) log)
    = Some ((1, Some sig), mkst rest (log ++ [EvPairing; EvRand r]))
    /\ forall s, sm9_do_verify mpk id ctx sig s
                 = Some (1, mkst (st_draws s) (st_log s ++ [EvPairing; EvPairing])).
Proof.
  intros g h HP HK HD Hr Hl. eexists. split.
  - exact (sm9_do_sign_first_pass key ctx r rest log Hl).
  - intro s. exact (sm9_do_verify_accepts mpk key id ks d ctx r s HP HK HD Hr).
Qed.

(** The DER codecs round-trip (the proofs of the codec section, shared by
    the properties below). *)
Lemma sm9_signature_der_roundtrip (sig : SM9_SIGNATURE) (t : bytes) :
  1 <= sig_h sig <= SM9_Z256_N - 1 ->
  sm9_z256_point_is_on_curve (sig_S sig) = true ->
  sm9_signature_from_der (sm9_signature_to_der sig ++ t) = (1, Some (sig, t)).
Proof.
  destruct sig as [h S]. intros Hh HS. cbn [sig_h sig_S] in Hh, HS.
  destruct (fn_bytes_roundtrip h) as [Fh Lh]; [lia|].
  destruct (point_octets_roundtrip S HS) as [FS LS].
  unfold sm9_signature_to_der, sm9_signature_from_der. cbn [sig_h sig_S].
  set (hbuf := sm9_z256_fn_to_bytes h) in *.
  set (Sbuf := sm9_z256_point_to_uncompressed_octets S) in *.
  pose proof (asn1_type_to_der_length ASN1_TAG_OCTET_STRING hbuf).
  pose proof (asn1_type_to_der_length ASN1_TAG_BIT_STRING (0 :: Sbuf)).
  unfold asn1_octet_string_to_der, asn1_bit_octets_to_der in *.
  cbn [length] in *.
  rewrite asn1_sequence_roundtrip' by (rewrite ?length_app; lia).
  unfold asn1_octet_string_from_der.
  rewrite asn1_type_roundtrip by lia.
  fold (asn1_bit_octets_to_der Sbuf).
  rewrite <- (app_nil_r (asn1_bit_octets_to_der Sbuf)).
  rewrite asn1_bit_octets_roundtrip by lia.
  rewrite Lh, LS, Fh, FS. reflexivity.
Qed.

Lemma sm9_ciphertext_der_roundtrip (C1 : point) (c2 c3 t : bytes) :
  sm9_z256_point_is_on_curve C1 = true ->
  length c3 = 32%nat ->
  Z.of_nat (length c2) < 2 ^ 31 ->
  sm9_ciphertext_from_der (sm9_ciphertext_to_der C1 c2 c3 ++ t)
  = (1, Some (C1, c2, c3, t)).
Proof.
  intros HC Lc3 Lc2.
  destruct (point_octets_roundtrip C1 HC) as [FC LC].
  unfold sm9_ciphertext_to_der, sm9_ciphertext_from_der, SM3_HMAC_SIZE.
  rewrite (sub_bytes_whole c3 32) by lia.
  set (c1 := sm9_z256_point_to_uncompressed_octets C1) in *.
  pose proof (asn1_type_to_der_length ASN1_TAG_BIT_STRING (0 :: c1)%list).
  pose proof (asn1_type_to_der_length ASN1_TAG_OCTET_STRING c3).
  pose proof (asn1_type_to_der_length ASN1_TAG_OCTET_STRING c2).
  unfold asn1_bit_octets_to_der, asn1_octet_string_to_der in *.
  assert (Li : length (asn1_int_to_der SM9_ENC_TYPE_XOR) = 3%nat) by reflexivity.
  cbn [length] in *.
  rewrite asn1_sequence_roundtrip' by (rewrite ?length_app; lia).
  unfold SM9_ENC_TYPE_XOR at 2. rewrite asn1_int_zero_roundtrip.
  fold (asn1_bit_octets_to_der c1).
  rewrite asn1_bit_octets_roundtrip by lia.
  unfold asn1_octet_string_from_der.
  rewrite asn1_type_roundtrip by lia.
  rewrite <- (app_nil_r (asn1_type_to_der ASN1_TAG_OCTET_STRING c2)).
  rewrite asn1_type_roundtrip by lia.
  rewrite LC, Lc3, FC. reflexivity.
Qed.

Lemma sm9_signature_to_der_length (sig : SM9_SIGNATURE) :
  0 <= sig_h sig < SM9_Z256_N ->
  sm9_z256_point_is_on_curve (sig_S sig) = true ->
  length (sm9_signature_to_der sig) = 104%nat.
Proof.
  destruct sig as [h S]. intros Hh HS. cbn [sig_h sig_S] in Hh, HS.
  destruct (fn_bytes_roundtrip h Hh) as [_ Lh].
  destruct (point_octets_roundtrip S HS) as [_ LS].
  unfold sm9_signature_to_der, asn1_octet_string_to_der, asn1_bit_octets_to_der,
    asn1_type_to_der. cbn [sig_h sig_S].
  rewrite !length_app. cbn [length]. rewrite !length_app. cbn [length].
  rewrite Lh, LS. reflexivity.
Qed.

(** [sm9_z256_fn_from_hash] puts the [h] of H2 into [[1, N-1]]. *)
Lemma sm9_hash2_step_range (ctx : sm3_ctx) (w : bytes) :
  1 <= snd (sm9_hash2_step ctx w) <= SM9_Z256_N - 1.
Proof.
  unfold sm9_hash2_step.
  destruct (sm3_finish (sm3_update (sm3_update ctx w) ct1)) as [c a].
  destruct (sm3_finish (sm3_update (sm3_update ctx w) ct2)) as [c' b].
  apply fn_from_hash_range.
Qed.

(** [sm9_do_verify] returns 0 or 1. *)
Lemma sm9_do_verify_result (mpk : SM9_SIGN_MASTER_KEY) (id : bytes) (ctx : sm3_ctx)
  (sig : SM9_SIGNATURE) (s : state) :
  exists v s', sm9_do_verify mpk id ctx sig s = Some (v, s') /\ (v = 0 \/ v = 1).
Proof.
  unfold sm9_do_verify, pairing_m, bind, emit, ret.
  set (q := sm9_hash2_step ctx _). destruct q as [c h2].
  destruct (negb _); eexists _, _; split; try reflexivity; auto.
Qed.

(** X2: the streaming interface round-trips.  With the keys of X1, after
    [sm9_sign_init] and [sm9_sign_update(msg)], a run of [sm9_sign_finish]
    whose first draw does not restart the loop writes a DER signature of
    104 bytes; [sm9_verify_init], [sm9_verify_update(msg)] and
    [sm9_verify_finish] of those bytes return 1.  The scalar [l d] of [S]
    is taken not divisible by [N], so that [S] is a point of the curve. *)
Theorem sm9_sign_finish_verify_finish (mpk : SM9_SIGN_MASTER_KEY) (key : SM9_SIGN_KEY)
  (id msg : bytes) (ks d : Z) (r : Z) (rest : list Z) (log : list event) :
  let ctx := sm9_sign_update sm9_sign_init msg in
  let g := sm9_z256_pairing (sign_key_Ppubs key) SM9_Z256_MONT_P1 in
  let h := snd (sm9_hash2_step ctx (sm9_z256_fp12_to_bytes (sm9_z256_fp12_pow g r))) in
  sign_mpk_Ppubs mpk = sm9_z256_twist_point_mul_generator ks ->
  sign_key_Ppubs key = sign_mpk_Ppubs mpk ->
  sign_key_ds key = sm9_z256_point_mul d SM9_Z256_MONT_P1 ->
  ((sm9_z256_hash1 id SM9_HID_SIGN + ks) * d) mod SM9_Z256_N = ks mod SM9_Z256_N ->
  sm9_z256_fn_is_zero (sm9_z256_fn_sub r h) = false ->
  (sm9_z256_fn_sub r h * d) mod SM9_Z256_N <> 0 ->
  exists der,
    sm9_sign_finish ctx key (mkst (r :: rest) log)
    = Some ((1, Some der), mkst rest (log ++ [EvPairing; EvRand r]))
    /\ length der = 104%nat
    /\ forall s, sm9_verify_finish (sm9_verify_update sm9_verify_init msg) der mpk id s
                 = Some (1, mkst (st_draws s) (st_log s ++ [EvPairing; EvPairing])).
Proof.
  intros ctx g h HP HK HD Hr Hl Hz.
  pose proof (sm9_hash2_step_range ctx
                (sm9_z256_fp12_to_bytes (sm9_z256_fp12_pow g r))) as Hh.
  fold h in Hh.
  assert (HS : sm9_z256_point_is_on_curve
                 (sm9_z256_point_mul (sm9_z256_fn_sub r h) (sign_key_ds key)) = true).
  { rewrite HD, point_mul_mul. now apply point_mul_P1_on_curve. }
  set (sig := {| sig_h := h;
                 sig_S := sm9_z256_point_mul (sm9_z256_fn_sub r h) (sign_key_ds key) |}).
  exists (sm9_signature_to_der sig). split; [|split].
  - unfold sm9_sign_finish, bind at 1.
    rewrite (sm9_do_sign_first_pass key ctx r rest log Hl). reflexivity.
  - apply sm9_signature_to_der_length; cbn [sig_h sig_S sig]; [lia|exact HS].
  - intros [dr lg]. unfold sm9_verify_finish.
    rewrite <- (app_nil_r (sm9_signature_to_der sig)).
    rewrite sm9_signature_der_roundtrip by (cbn [sig_h sig_S sig]; auto).
    cbn -[sm9_do_verify]. unfold bind.
    change (sm9_verify_update sm9_verify_init msg) with ctx.
    rewrite (sm9_do_verify_accepts mpk key id ks d ctx r _ HP HK HD Hr). reflexivity.
Qed.

(** X3: a signature with [h] in [[0, N-1]] and [S] on the curve is
    encoded by [sm9_signature_to_der] in exactly 104 bytes. *)
Theorem sm9_signature_to_der_size (sig : SM9_SIGNATURE) :
  0 <= sig_h sig < SM9_Z256_N ->
  sm9_z256_point_is_on_curve (sig_S sig) = true ->
  length (sm9_signature_to_der sig) = 104%nat.
Proof. exact (sm9_signature_to_der_length sig). Qed.

(** X4: [sm9_verify_finish] refuses bytes after the encoded signature.
    On the encoding of a signature with [h] in [[1, N-1]] and [S] on the
    curve followed by [t], it returns what [sm9_do_verify] returns when
    [t] is empty, and -1 with the state unchanged (no pairing) otherwise. *)
Theorem sm9_verify_finish_trailing (ctx : sm3_ctx) (sig : SM9_SIGNATURE)
  (mpk : SM9_SIGN_MASTER_KEY) (id t : bytes) (s : state) :
  1 <= sig_h sig <= SM9_Z256_N - 1 ->
  sm9_z256_point_is_on_curve (sig_S sig) = true ->
  sm9_verify_finish ctx (sm9_signature_to_der sig ++ t) mpk id s
  = match t with
    | [] => sm9_do_verify mpk id ctx sig s
    | _ :: _ => Some (-1, s)
    end.
Proof.
  intros Hh HS. unfold sm9_verify_finish.
  rewrite sm9_signature_der_roundtrip by assumption.
  destruct t as [|b t]; cbn -[sm9_do_verify]; [|reflexivity].
  unfold bind. destruct (sm9_do_verify_result mpk id ctx sig s) as [v [s' [E Hv]]].
  rewrite E. destruct Hv as [-> | ->]; reflexivity.
Qed.

(** The [w] of decapsulation (B2) equals the [w] of encapsulation (A5). *)
Lemma sm9_kem_decrypt_w (mpk : SM9_ENC_MASTER_KEY) (key : SM9_ENC_KEY) (id : bytes)
  (ke d r : Z) :
  enc_mpk_Ppube mpk = sm9_z256_point_mul ke SM9_Z256_MONT_P1 ->
  enc_key_de key = sm9_z256_twist_point_mul_generator d ->
  ((sm9_z256_hash1 id SM9_HID_ENC + ke) * d) mod SM9_Z256_N = ke mod SM9_Z256_N ->
  sm9_z256_pairing (enc_key_de key)
    (sm9_z256_point_mul r
       (sm9_z256_point_add (sm9_z256_point_mul (sm9_z256_hash1 id SM9_HID_ENC) SM9_Z256_MONT_P1)
          (enc_mpk_Ppube mpk)))
  = sm9_z256_fp12_pow (sm9_z256_pairing SM9_Z256_MONT_P2 (enc_mpk_Ppube mpk)) r.
Proof.
  intros HPe Hde Hr. rewrite HPe, Hde, point_add_mul, point_mul_mul, pairing_gen_mul,
    pairing_P2_mul, fp12_pow_pow.
  apply pow_base_congr.
  rewrite <- (key_relation_mul _ _ _ _ r N_nonzero Hr). f_equal. ring.
Qed.

(** The ciphertext point [C = r Q] of encapsulation. *)
Lemma sm9_kem_C_point (mpk : SM9_ENC_MASTER_KEY) (id : bytes) (ke r : Z) :
  enc_mpk_Ppube mpk = sm9_z256_point_mul ke SM9_Z256_MONT_P1 ->
  sm9_z256_point_mul r
    (sm9_z256_point_add (sm9_z256_point_mul (sm9_z256_hash1 id SM9_HID_ENC) SM9_Z256_MONT_P1)
       (enc_mpk_Ppube mpk))
  = sm9_z256_point_mul (r * (sm9_z256_hash1 id SM9_HID_ENC + ke)) SM9_Z256_MONT_P1.
Proof. intro HPe. now rewrite HPe, point_add_mul, point_mul_mul. Qed.

(** A run of [sm9_kem_encrypt] whose first draw gives a non-zero key. *)
Lemma sm9_kem_encrypt_first_pass (mpk : SM9_ENC_MASTER_KEY) (id : bytes) (klen r : Z)
  (rest : list Z) (log : list event) :
  let Q := sm9_z256_point_add (sm9_z256_point_mul (sm9_z256_hash1 id SM9_HID_ENC)
                                 SM9_Z256_MONT_P1) (enc_mpk_Ppube mpk) in
  let C := sm9_z256_point_mul r Q in
  let w := sm9_z256_fp12_pow (sm9_z256_pairing SM9_Z256_MONT_P2 (enc_mpk_Ppube mpk)) r in
  let K := sm3_kdf klen (sub_bytes (sm9_z256_point_to_uncompressed_octets C) 1 64
                         ++ sm9_z256_fp12_to_bytes w ++ id) in
  mem_is_zero K klen = false ->
  sm9_kem_encrypt mpk id klen (mkst (r :: rest) log)
  = Some ((1, Some (K, C)), mkst rest (log ++ [EvRand r; EvPairing; EvKdf klen])).
Proof.
  intros Q C w K Hz.
  unfold sm9_kem_encrypt, with_draw_fuel, bind. cbn -[sub_bytes].
  unfold sm9_kem_encrypt_body, pairing_m, sm3_kdf_m, bind, emit, ret, sm9_z256_fn_rand.
  cbn -[sub_bytes]. subst Q C w K. rewrite Hz. cbn. now rewrite <- !app_assoc.
Qed.

(** [sm9_kem_decrypt] of that [C] gives the same key. *)
Lemma sm9_kem_decrypt_same_key (mpk : SM9_ENC_MASTER_KEY) (key : SM9_ENC_KEY) (id : bytes)
  (ke d klen r : Z) (s : state) :
  let Q := sm9_z256_point_add (sm9_z256_point_mul (sm9_z256_hash1 id SM9_HID_ENC)
                                 SM9_Z256_MONT_P1) (enc_mpk_Ppube mpk) in
  let C := sm9_z256_point_mul r Q in
  let w := sm9_z256_fp12_pow (sm9_z256_pairing SM9_Z256_MONT_P2 (enc_mpk_Ppube mpk)) r in
  let K := sm3_kdf klen (sub_bytes (sm9_z256_point_to_uncompressed_octets C) 1 64
                         ++ sm9_z256_fp12_to_bytes w ++ id) in
  enc_mpk_Ppube mpk = sm9_z256_point_mul ke SM9_Z256_MONT_P1 ->
  enc_key_de key = sm9_z256_twist_point_mul_generator d ->
  ((sm9_z256_hash1 id SM9_HID_ENC + ke) * d) mod SM9_Z256_N = ke mod SM9_Z256_N ->
  mem_is_zero K klen = false ->
  sm9_kem_decrypt key id C klen s
  = Some ((1, Some K), mkst (st_draws s) (st_log s ++ [EvPairing; EvKdf klen])).
Proof.
  intros Q C w K HPe Hde Hr Hz. destruct s as [dr lg].
  unfold sm9_kem_decrypt, pairing_m, sm3_kdf_m, bind, emit, ret. cbn -[sub_bytes].
  subst Q C. rewrite (sm9_kem_decrypt_w mpk key id ke d r HPe Hde Hr).
  subst w K. rewrite Hz. cbn. now rewrite <- app_assoc.
Qed.

(** X5: the KEM round-trips.  For [Ppub-e = ke P1] and a key [de = d P2]
    with [(H1(ID, hid) + ke) d = ke (mod N)], a run of [sm9_kem_encrypt]
    whose first draw [r] gives a non-zero key returns [(K, C)] after one
    pass, and [sm9_kem_decrypt] of [C] returns the same [K]. *)
Theorem sm9_kem_roundtrip (mpk : SM9_ENC_MASTER_KEY) (key : SM9_ENC_KEY) (id : bytes)
  (ke d klen r : Z) (rest : list Z) (log : list event) :
  let Q := sm9_z256_point_add (sm9_z256_point_mul (sm9_z256_hash1 id SM9_HID_ENC)
                                 SM9_Z256_MONT_P1) (enc_mpk_Ppube mpk) in
  let C := sm9_z256_point_mul r Q in
  let w := sm9_z256_fp12_pow (sm9_z256_pairing SM9_Z256_MONT_P2 (enc_mpk_Ppube mpk)) r in
  let K := sm3_kdf klen (sub_bytes (sm9_z256_point_to_uncompressed_octets C) 1 64
                         ++ sm9_z256_fp12_to_bytes w ++ id) in
  enc_mpk_Ppube mpk = sm9_z256_point_mul ke SM9_Z256_MONT_P1 ->
  enc_key_de key = sm9_z256_twist_point_mul_generator d ->
  ((sm9_z256_hash1 id SM9_HID_ENC + ke) * d) mod SM9_Z256_N = ke mod SM9_Z256_N ->
  mem_is_zero K klen = false ->
  sm9_kem_encrypt mpk id klen (mkst (r :: rest) log)
  = Some ((1, Some (K, C)), mkst rest (log ++ [EvRand r; EvPairing; EvKdf klen]))
  /\ forall s, sm9_kem_decrypt key id C klen s
               = Some ((1, Some K), mkst (st_draws s) (st_log s ++ [EvPairing; EvKdf klen])).
Proof.
  intros Q C w K HPe Hde Hr Hz. split.
  - exact (sm9_kem_encrypt_first_pass mpk id klen r rest log Hz).
  - intro s. exact (sm9_kem_decrypt_same_key mpk key id ke d klen r s HPe Hde Hr Hz).
Qed.

Lemma kem_body_exit_nonzero (mpk : SM9_ENC_MASTER_KEY) (id : bytes) (klen : Z) :
  forall ls s ls' s',
    sm9_kem_encrypt_body mpk id klen ls s = Some (Exit ls', s') ->
    mem_is_zero (snd ls') klen = false.
Proof.
  intros [C0 k0] s [C1 k1] s'. unfold sm9_kem_encrypt_body, pairing_m, sm3_kdf_m,
    bind, emit, ret, sm9_z256_fn_rand.
  destruct (st_draws s) as [|r rest]; cbn; [discriminate|].
  destruct (mem_is_zero _ _) eqn:Ez; intro E; [discriminate|].
  injection E; intros; subst. exact Ez.
Qed.

Lemma exch_1B_body_exit_nonzero (mpk : SM9_EXCH_MASTER_KEY) (idA idB : bytes)
  (key : SM9_EXCH_KEY) (RA : point) (klen : Z) :
  forall ls s ls' s',
    sm9_exch_step_1B_body mpk idA idB key RA klen ls s = Some (Exit ls', s') ->
    mem_is_zero (snd ls') klen = false.
Proof.
  intros [R0 k0] s [R1 k1] s'. unfold sm9_exch_step_1B_body, pairing_m, sm3_kdf_m,
    bind, emit, ret, sm9_z256_fn_rand.
  destruct (st_draws s) as [|r rest]; cbn; [discriminate|].
  destruct (sm9_z256_point_is_on_curve RA); cbn; [|discriminate].
  destruct (mem_is_zero _ _) eqn:Ez; intro E; [discriminate|].
  injection E; intros; subst. exact Ez.
Qed.

Lemma exch_2A_body_exit_nonzero (mpk : SM9_EXCH_MASTER_KEY) (idA idB : bytes)
  (key : SM9_EXCH_KEY) (rA : Z) (RA RB : point) (klen : Z) :
  forall ls s ls' s',
    sm9_exch_step_2A_body mpk idA idB key rA RA RB klen ls s = Some (Exit ls', s') ->
    mem_is_zero ls' klen = false.
Proof.
  intros k0 s k1 s'. unfold sm9_exch_step_2A_body, pairing_m, sm3_kdf_m, bind, emit, ret.
  destruct (sm9_z256_point_is_on_curve RB); cbn; [|discriminate].
  destruct (mem_is_zero _ _) eqn:Ez; intro E; [discriminate|].
  injection E; intros; subst. exact Ez.
Qed.

(** X6: no function of the file hands out an all-zero key.  Whenever
    [sm9_kem_encrypt], [sm9_kem_decrypt], [sm9_exch_step_1B] or
    [sm9_exch_step_2A] returns 1 with a key, the first [klen] bytes of that
    key are not all zero. *)
Theorem sm9_keys_never_zero :
  (forall mpk id klen s K C s',
     sm9_kem_encrypt mpk id klen s = Some ((1, Some (K, C)), s') ->
     mem_is_zero K klen = false)
  /\ (forall key id C klen s K s',
     sm9_kem_decrypt key id C klen s = Some ((1, Some K), s') ->
     mem_is_zero K klen = false)
  /\ (forall mpk idA idB key RA klen s RB sk s',
     sm9_exch_step_1B mpk idA idB key RA klen s = Some ((1, Some (RB, sk)), s') ->
     mem_is_zero sk klen = false)
  /\ (forall mpk idA idB key rA RA RB klen fuel s sk s',
     sm9_exch_step_2A mpk idA idB key rA RA RB klen fuel s = Some ((1, Some sk), s') ->
     mem_is_zero sk klen = false).
Proof.
  split; [|split; [|split]].
  - intros mpk id klen s K C s'. unfold sm9_kem_encrypt, with_draw_fuel, bind.
    destruct (do_while _ _ _ _) as [[[c|[C0 k0]] s1]|] eqn:E; cbn; intro E2;
      try discriminate E2.
    injection E2; intros; subst.
    exact (do_while_exit (fun ls => mem_is_zero (snd ls) klen = false) _ _ _ _ _ _
             (kem_body_exit_nonzero mpk id klen) E).
  - intros key id C klen s K s'. unfold sm9_kem_decrypt, pairing_m, sm3_kdf_m, bind, emit, ret.
    destruct (mem_is_zero _ _) eqn:Ez; intro E; [discriminate|].
    injection E; intros; subst. exact Ez.
  - intros mpk idA idB key RA klen s RB sk s'. unfold sm9_exch_step_1B, with_draw_fuel, bind.
    destruct (do_while _ _ _ _) as [[[c|[R0 k0]] s1]|] eqn:E; cbn; intro E2;
      try discriminate E2.
    injection E2; intros; subst.
    exact (do_while_exit (fun ls => mem_is_zero (snd ls) klen = false) _ _ _ _ _ _
             (exch_1B_body_exit_nonzero mpk idA idB key RA klen) E).
  - intros mpk idA idB key rA RA RB klen fuel s sk s'. unfold sm9_exch_step_2A, bind.
    destruct (do_while _ _ _ _) as [[[c|k0] s1]|] eqn:E; cbn; intro E2;
      try discriminate E2.
    injection E2; intros; subst.
    exact (do_while_exit (fun ls => mem_is_zero ls klen = false) _ _ _ _ _ _
             (exch_2A_body_exit_nonzero mpk idA idB key rA RA RB klen) E).
Qed.

(** X7: encryption round-trips through the DER envelope.  With the keys
    of X5 and a message [m] of at most [SM9_MAX_PLAINTEXT_SIZE] bytes, a run
    of [sm9_encrypt] whose first draw [r] gives a non-zero key (and a point
    [C1] of the curve) returns a ciphertext, and [sm9_decrypt] of it,
    with an output buffer, returns 1, [*outlen = mlen] and [m]. *)
Theorem sm9_encrypt_decrypt_roundtrip (mpk : SM9_ENC_MASTER_KEY) (key : SM9_ENC_KEY)
  (id m : bytes) (ke d r : Z) (rest : list Z) (log : list event) :
  let klen := SM9_MAX_PLAINTEXT_SIZE + 32 in
  let Q := sm9_z256_point_add (sm9_z256_point_mul (sm9_z256_hash1 id SM9_HID_ENC)
                                 SM9_Z256_MONT_P1) (enc_mpk_Ppube mpk) in
  let C := sm9_z256_point_mul r Q in
  let w := sm9_z256_fp12_pow (sm9_z256_pairing SM9_Z256_MONT_P2 (enc_mpk_Ppube mpk)) r in
  let K := sm3_kdf klen (sub_bytes (sm9_z256_point_to_uncompressed_octets C) 1 64
                         ++ sm9_z256_fp12_to_bytes w ++ id) in
  enc_mpk_Ppube mpk = sm9_z256_point_mul ke SM9_Z256_MONT_P1 ->
  enc_key_de key = sm9_z256_twist_point_mul_generator d ->
  ((sm9_z256_hash1 id SM9_HID_ENC + ke) * d) mod SM9_Z256_N = ke mod SM9_Z256_N ->
  mem_is_zero K klen = false ->
  (r * (sm9_z256_hash1 id SM9_HID_ENC + ke)) mod SM9_Z256_N <> 0 ->
  Z.of_nat (length m) <= SM9_MAX_PLAINTEXT_SIZE ->
  exists ct,
    sm9_encrypt mpk id m (mkst (r :: rest) log)
    = Some ((1, Some ct), mkst rest (log ++ [EvRand r; EvPairing; EvKdf klen; EvHmac]))
    /\ forall s, sm9_decrypt key id ct true s
                 = Some ((1, Some (Z.of_nat (length m)), Some m),
                         mkst (st_draws s) (st_log s ++ [EvPairing; EvKdf klen; EvHmac])).
Proof.
  intros klen Q C w K HPe Hde Hr Hz HC Hm.
  pose proof max_plaintext_range as Hmax.
  assert (LK : length K = Z.to_nat klen) by (apply sm3_kdf_length; lia).
  assert (Lc2 : length (gmssl_memxor K m (Z.of_nat (length m))) = length m).
  { rewrite gmssl_memxor_length; lia. }
  assert (HCc : sm9_z256_point_is_on_curve C = true).
  { subst C Q. rewrite (sm9_kem_C_point mpk id ke r HPe). now apply point_mul_P1_on_curve. }
  exists (sm9_ciphertext_to_der C (gmssl_memxor K m (Z.of_nat (length m)))
            (sm3_hmac (sub_bytes K (Z.of_nat (length m)) SM3_HMAC_SIZE)
               (gmssl_memxor K m (Z.of_nat (length m))))).
  split.
  - unfold sm9_encrypt. rewrite (proj2 (Z.ltb_ge _ _)) by lia. cbn [negb].
    unfold sm9_do_encrypt, bind. cbv beta zeta.
    fold klen. rewrite (sm9_kem_encrypt_first_pass mpk id klen r rest log Hz).
    fold Q C w K. unfold sm3_hmac_m, bind, emit, ret. cbn -[sub_bytes gmssl_memxor sm9_ciphertext_to_der sm3_hmac].
    now rewrite <- app_assoc.
  - intros [dr lg]. unfold sm9_decrypt.
    rewrite <- (app_nil_r (sm9_ciphertext_to_der _ _ _)).
    rewrite sm9_ciphertext_der_roundtrip
      by (try apply sm3_hmac_length; try rewrite Lc2; auto; lia).
    cbn -[sm9_do_decrypt gmssl_memxor sm3_hmac sub_bytes]. rewrite Lc2.
    unfold sm9_do_decrypt, bind. cbv beta zeta. rewrite Lc2.
    rewrite (proj2 (Z.ltb_ge _ _)) by lia.
    change (SM9_MAX_PLAINTEXT_SIZE + SM3_HMAC_SIZE) with klen.
    pose proof (sm9_kem_decrypt_same_key mpk key id ke d klen r (mkst dr lg) HPe Hde Hr Hz)
      as E. fold Q C w K in E. rewrite E. clear E.
    unfold sm3_hmac_m, bind, emit, ret.
    cbn -[sub_bytes gmssl_memxor sm3_hmac].
    rewrite (sub_bytes_whole _ 32) by (rewrite sm3_hmac_length; reflexivity).
    rewrite bytes_eqb_refl. cbn [negb].
    rewrite gmssl_memxor_involutive by lia.
    now rewrite <- app_assoc.
Qed.

(** X8: [sm9_decrypt] refuses a well-formed ciphertext followed by any
    further bytes: it returns -1, sets no [*outlen], writes nothing and
    makes no call. *)
Theorem sm9_decrypt_rejects_trailing (key : SM9_ENC_KEY) (id : bytes) (C1 : point)
  (c2 c3 t : bytes) (out_given : bool) (s : state) :
  sm9_z256_point_is_on_curve C1 = true ->
  length c3 = 32%nat ->
  Z.of_nat (length c2) < 2 ^ 31 ->
  t <> [] ->
  sm9_decrypt key id (sm9_ciphertext_to_der C1 c2 c3 ++ t) out_given s
  = Some ((-1, None, None), s).
Proof.
  intros HC Lc3 Lc2 Ht. unfold sm9_decrypt.
  rewrite sm9_ciphertext_der_roundtrip by assumption.
  destruct t as [|b t]; [contradiction|]. reflexivity.
Qed.

(** A pass of the signing loop exits only with [l] and [h] in [[1, N-1]]. *)
Lemma sm9_sign_body_exit_range (ls : fp12 * sm3_ctx * Z * Z) (s : state)
  (ls' : fp12 * sm3_ctx * Z * Z) (s' : state) :
  sm9_sign_body ls s = Some (Exit ls', s') ->
  let '(_, _, l, h) := ls' in
  1 <= l <= SM9_Z256_N - 1 /\ 1 <= h <= SM9_Z256_N - 1.
Proof.
  destruct ls as [[[g c] l0] h0]. destruct s as [[|r rest] lg];
    unfold sm9_sign_body, sm9_z256_fn_rand, bind, ret; cbn; [discriminate|].
  pose proof (sm9_hash2_step_range c (sm9_z256_fp12_to_bytes (sm9_z256_fp12_pow g r))) as Hh.
  destruct (sm9_hash2_step c _) as [c1 h] eqn:Eh. cbn in Hh.
  unfold sm9_z256_fn_is_zero, sm9_z256_fn_sub.
  destruct (Z.eqb_spec ((r - h) mod SM9_Z256_N) 0) as [Hz|Hz]; [discriminate|].
  intro E. injection E as <- _.
  pose proof N_gt_1. pose proof (Z.mod_pos_bound (r - h) SM9_Z256_N). lia.
Qed.

(** X10: whatever [sm9_do_sign] returns as a signature has its [h] in
    [[1, N-1]] and [S = l * ds] for an [l] in [[1, N-1]]: the A5 test
    [l = 0] is never passed through. *)
Theorem sm9_do_sign_output_range (key : SM9_SIGN_KEY) (ctx : sm3_ctx) (s : state)
  (sig : SM9_SIGNATURE) (s' : state) :
  sm9_do_sign key ctx s = Some ((1, Some sig), s') ->
  1 <= sig_h sig <= SM9_Z256_N - 1
  /\ exists l, 1 <= l <= SM9_Z256_N - 1
               /\ sig_S sig = sm9_z256_point_mul l (sign_key_ds key).
Proof.
  unfold sm9_do_sign, pairing_m, with_draw_fuel, bind, emit, ret. cbn -[do_while].
  destruct (do_while _ _ _ _) as [[[c|[[[g c] l] h]] s1]|] eqn:E; cbn; intro E2;
    try discriminate E2.
  injection E2 as <- _.
  pose proof (do_while_exit
                (fun ls : fp12 * sm3_ctx * Z * Z => let '(_, _, l, h) := ls in
                   1 <= l <= SM9_Z256_N - 1 /\ 1 <= h <= SM9_Z256_N - 1)
                _ _ _ _ _ _ sm9_sign_body_exit_range E) as [Hl Hh].
  cbn. split; [exact Hh|]. exists l. auto.
Qed.

(** X11: [sm9_do_decrypt] accepts one tag only.  If it returns 1 for the
    32-byte tag [c3], then for every other 32-byte tag [c3'] the same call
    returns -1, writes nothing and leaves the same state. *)
Theorem sm9_do_decrypt_tag_unique (key : SM9_ENC_KEY) (id : bytes) (C1 : point)
  (c2 c3 c3' : bytes) (s : state) (m : bytes) (s' : state) :
  sm9_do_decrypt key id C1 c2 c3 s = Some ((1, Some m), s') ->
  length c3 = 32%nat -> length c3' = 32%nat -> c3' <> c3 ->
  sm9_do_decrypt key id C1 c2 c3' s = Some ((-1, None), s').
Proof.
  intros E Lc3 Lc3' Hne. revert E. unfold sm9_do_decrypt.
  destruct (SM9_MAX_PLAINTEXT_SIZE <? _); [discriminate|].
  unfold bind. destruct (sm9_kem_decrypt key id C1 _ s) as [[[code ok] s1]|];
    [|discriminate].
  destruct code as [|[p|p|]|p]; cbn -[bytes_eqb sub_bytes]; try discriminate.
  destruct ok as [k|]; [|discriminate].
  unfold sm3_hmac_m, bind, emit, ret. cbn -[bytes_eqb sub_bytes gmssl_memxor sm3_hmac].
  rewrite (sub_bytes_whole c3 SM3_HMAC_SIZE), (sub_bytes_whole c3' SM3_HMAC_SIZE)
    by (unfold SM3_HMAC_SIZE; lia).
  destruct (bytes_eqb c3 _) eqn:E3; cbn -[sub_bytes]; [|discriminate].
  intro E. injection E as _ <-. apply bytes_eqb_true in E3.
  destruct (bytes_eqb c3' _) eqn:E3'; cbn -[sub_bytes]; [|reflexivity].
  apply bytes_eqb_true in E3'. congruence.
Qed.

(** X12: the exchange steps refuse a peer point off the curve.  Step 1B
    with an [RA] off the curve returns -1 after one draw and no pairing;
    step 2A with an [RB] off the curve returns -1 and makes no call. *)
Theorem sm9_exch_rejects_off_curve :
  (forall mpk idA idB key RA klen r rest log,
     sm9_z256_point_is_on_curve RA = false ->
     sm9_exch_step_1B mpk idA idB key RA klen (mkst (r :: rest) log)
     = Some ((-1, None), mkst rest (log ++ [EvRand r])))
  /\ (forall mpk idA idB key rA RA RB klen fuel s,
     sm9_z256_point_is_on_curve RB = false ->
     sm9_exch_step_2A mpk idA idB key rA RA RB klen (S fuel) s = Some ((-1, None), s)).
Proof.
  split.
  - intros mpk idA idB key RA klen r rest log HRA.
    unfold sm9_exch_step_1B, with_draw_fuel, bind. cbn -[sm9_exch_step_1B_body].
    unfold sm9_exch_step_1B_body, sm9_z256_fn_rand, bind, ret. cbn.
    now rewrite HRA.
  - intros mpk idA idB key rA RA RB klen fuel s HRB.
    unfold sm9_exch_step_2A, bind. cbn -[sm9_exch_step_2A_body].
    unfold sm9_exch_step_2A_body. rewrite HRB. reflexivity.
Qed.

(** [Q = H1(ID, hid) P1 + Ppub-e] for [Ppub-e = ke P1]. *)
Lemma exch_Q_point (mpk : SM9_ENC_MASTER_KEY) (h ke r : Z) :
  enc_mpk_Ppube mpk = sm9_z256_point_mul ke SM9_Z256_MONT_P1 ->
  sm9_z256_point_mul r
    (sm9_z256_point_add (sm9_z256_point_mul h SM9_Z256_MONT_P1) (enc_mpk_Ppube mpk))
  = sm9_z256_point_mul (r * (h + ke)) SM9_Z256_MONT_P1.
Proof. intro HPe. now rewrite HPe, point_add_mul, point_mul_mul. Qed.

(** [e(r Q, de) = e(Ppub-e, P2)^r] for a key [de] of the identity of [Q]. *)
Lemma exch_pairing_w (mpk : SM9_ENC_MASTER_KEY) (de : twist_point) (h ke d r : Z) :
  enc_mpk_Ppube mpk = sm9_z256_point_mul ke SM9_Z256_MONT_P1 ->
  de = sm9_z256_twist_point_mul_generator d ->
  ((h + ke) * d) mod SM9_Z256_N = ke mod SM9_Z256_N ->
  sm9_z256_pairing de
    (sm9_z256_point_mul r
       (sm9_z256_point_add (sm9_z256_point_mul h SM9_Z256_MONT_P1) (enc_mpk_Ppube mpk)))
  = sm9_z256_fp12_pow (sm9_z256_pairing SM9_Z256_MONT_P2 (enc_mpk_Ppube mpk)) r.
Proof.
  intros HPe Hde Hr. rewrite (exch_Q_point mpk h ke r HPe), Hde, pairing_gen_mul, HPe,
    pairing_P2_mul, fp12_pow_pow.
  apply pow_base_congr.
  rewrite <- (key_relation_mul _ _ _ _ r N_nonzero Hr). f_equal. ring.
Qed.

(** X9: the key exchange agrees.  For [Ppub-e = ke P1] and keys
    [deA = dA P2], [deB = dB P2] of [ID_A] and [ID_B], step 1A returns
    [RA = rA QB], step 1B (when its first pass gives a non-zero key) returns
    [RB = rB QA] and a key [SKB], and step 2A on [RA] and [RB] returns the
    same key after one pass; [rA] and [rB] are the values the code writes
    over the draws. *)
Theorem sm9_exch_agreement (mpk : SM9_EXCH_MASTER_KEY) (keyA keyB : SM9_EXCH_KEY)
  (idA idB : bytes) (ke dA dB klen r1 r2 : Z) (rest1 rest2 : list Z)
  (log1 log2 : list event) :
  let QB := sm9_z256_point_add (sm9_z256_point_mul (sm9_z256_hash1 idB SM9_HID_EXCH)
                                  SM9_Z256_MONT_P1) (enc_mpk_Ppube mpk) in
  let QA := sm9_z256_point_add (sm9_z256_point_mul (sm9_z256_hash1 idA SM9_HID_EXCH)
                                  SM9_Z256_MONT_P1) (enc_mpk_Ppube mpk) in
  let RA := sm9_z256_point_mul SM9_TEST_rA QB in
  let RB := sm9_z256_point_mul SM9_TEST_rB QA in
  let G1 := sm9_z256_pairing (enc_key_de keyB) RA in
  let G2 := sm9_z256_fp12_pow (sm9_z256_pairing SM9_Z256_MONT_P2 (enc_mpk_Ppube mpk))
              SM9_TEST_rB in
  let G3 := sm9_z256_fp12_pow G1 SM9_TEST_rB in
  let sk := sm3_kdf klen (sm9_exch_kdf_input idA idB RA RB G1 G2 G3) in
  enc_mpk_Ppube mpk = sm9_z256_point_mul ke SM9_Z256_MONT_P1 ->
  enc_key_de keyA = sm9_z256_twist_point_mul_generator dA ->
  enc_key_de keyB = sm9_z256_twist_point_mul_generator dB ->
  ((sm9_z256_hash1 idA SM9_HID_EXCH + ke) * dA) mod SM9_Z256_N = ke mod SM9_Z256_N ->
  ((sm9_z256_hash1 idB SM9_HID_EXCH + ke) * dB) mod SM9_Z256_N = ke mod SM9_Z256_N ->
  (SM9_TEST_rA * (sm9_z256_hash1 idB SM9_HID_EXCH + ke)) mod SM9_Z256_N <> 0 ->
  (SM9_TEST_rB * (sm9_z256_hash1 idA SM9_HID_EXCH + ke)) mod SM9_Z256_N <> 0 ->
  mem_is_zero sk klen = false ->
  sm9_exch_step_1A mpk idB (mkst (r1 :: rest1) log1)
  = Some ((1, Some (RA, SM9_TEST_rA)), mkst rest1 (log1 ++ [EvRand r1]))
  /\ sm9_exch_step_1B mpk idA idB keyB RA klen (mkst (r2 :: rest2) log2)
     = Some ((1, Some (RB, sk)),
             mkst rest2 (log2 ++ [EvRand r2; EvPairing; EvPairing; EvKdf klen]))
  /\ forall fuel s,
     sm9_exch_step_2A mpk idA idB keyA SM9_TEST_rA RA RB klen (S fuel) s
     = Some ((1, Some sk), mkst (st_draws s) (st_log s ++ [EvPairing; EvPairing; EvKdf klen])).
Proof.
  intros QB QA RA RB G1 G2 G3 sk HPe HdA HdB HrA HrB HA HB Hz.
  assert (CA : sm9_z256_point_is_on_curve RA = true).
  { subst RA QB. rewrite (exch_Q_point mpk _ ke _ HPe). now apply point_mul_P1_on_curve. }
  assert (CB : sm9_z256_point_is_on_curve RB = true).
  { subst RB QA. rewrite (exch_Q_point mpk _ ke _ HPe). now apply point_mul_P1_on_curve. }
  assert (EG1 : G1 = sm9_z256_fp12_pow (sm9_z256_pairing SM9_Z256_MONT_P2 (enc_mpk_Ppube mpk))
                       SM9_TEST_rA)
    by exact (exch_pairing_w mpk _ _ ke dB _ HPe HdB HrB).
  assert (EG2 : sm9_z256_pairing (enc_key_de keyA) RB = G2)
    by exact (exch_pairing_w mpk _ _ ke dA _ HPe HdA HrA).
  assert (EG3 : sm9_z256_fp12_pow G2 SM9_TEST_rA = G3).
  { subst G3. rewrite EG1. subst G2. now rewrite !fp12_pow_pow, Z.mul_comm. }
  split; [|split].
  - reflexivity.
  - unfold sm9_exch_step_1B, with_draw_fuel, bind. cbn -[sm9_exch_step_1B_body].
    unfold sm9_exch_step_1B_body, sm9_z256_fn_rand, pairing_m, sm3_kdf_m, bind, emit, ret.
    cbn -[sm9_exch_kdf_input]. fold QA RB. rewrite CA. cbn -[sm9_exch_kdf_input].
    fold G1 G2 G3 sk. rewrite Hz. cbn. now rewrite <- !app_assoc.
  - intros fuel [dr lg]. unfold sm9_exch_step_2A, bind. cbn -[sm9_exch_step_2A_body].
    unfold sm9_exch_step_2A_body, pairing_m, sm3_kdf_m, bind, emit, ret.
    rewrite CB. cbn -[sm9_exch_kdf_input sm9_z256_fp12_pow sm9_z256_pairing].
    rewrite EG2, EG3, <- EG1. fold sk. rewrite Hz. cbn. now rewrite <- !app_assoc.
Qed.

(** X13: the envelope enforces [SM9_MAX_PLAINTEXT_SIZE].  [sm9_encrypt] of
    a longer message returns -1 and makes no call.  [sm9_decrypt] with an
    output buffer ([out != NULL]) of a well-formed ciphertext whose [c2] is
    longer returns -1 without a call, with [*outlen] already set to [|c2|]
    (without an output buffer it answers the length query, as for C10). *)
Theorem sm9_envelope_size_limit :
  (forall mpk id m s,
     SM9_MAX_PLAINTEXT_SIZE < Z.of_nat (length m) ->
     sm9_encrypt mpk id m s = Some ((-1, None), s))
  /\ (forall key id C1 c2 c3 s,
     sm9_z256_point_is_on_curve C1 = true ->
     length c3 = 32%nat ->
     Z.of_nat (length c2) < 2 ^ 31 ->
     SM9_MAX_PLAINTEXT_SIZE < Z.of_nat (length c2) ->
     sm9_decrypt key id (sm9_ciphertext_to_der C1 c2 c3) true s
     = Some ((-1, Some (Z.of_nat (length c2)), None), s)).
Proof.
  split.
  - intros mpk id m s Hm. unfold sm9_encrypt.
    rewrite (proj2 (Z.ltb_lt _ _) Hm). reflexivity.
  - intros key id C1 c2 c3 s HC Lc3 Lc2 Hm. unfold sm9_decrypt.
    rewrite <- (app_nil_r (sm9_ciphertext_to_der _ _ _)).
    rewrite sm9_ciphertext_der_roundtrip by assumption.
    cbn -[sm9_do_decrypt]. unfold sm9_do_decrypt, bind. cbv beta zeta.
    rewrite (proj2 (Z.ltb_lt _ _) Hm). reflexivity.
Qed.

(** X14: when the random source fails at its first call, [sm9_do_sign]
    (after its pairing), [sm9_kem_encrypt] and the exchange steps 1A and 1B
    return -1 with no result and make no further call. *)
Theorem sm9_rand_failure (log : list event) :
  (forall key ctx,
     sm9_do_sign key ctx (mkst [] log) = Some ((-1, None), mkst [] (log ++ [EvPairing])))
  /\ (forall mpk id klen,
     sm9_kem_encrypt mpk id klen (mkst [] log) = Some ((-1, None), mkst [] log))
  /\ (forall mpk idB,
     sm9_exch_step_1A mpk idB (mkst [] log) = Some ((-1, None), mkst [] log))
  /\ (forall mpk idA idB key RA klen,
     sm9_exch_step_1B mpk idA idB key RA klen (mkst [] log) = Some ((-1, None), mkst [] log)).
Proof.
  split; [|split; [|split]]; intros; reflexivity.
Qed.

End Extras.

(** ** The further properties on the small instance *)

Module ToyExtras.
Import Toy ToyRuns.

(** The small instance meets the further laws. *)
#[export] Instance ext : SM9ContractExt.
Proof.
  pose proof N_pos as HN.
  constructor; cbn -[N be_value digest].
  - intros a b. rewrite !Z.mul_1_r. now rewrite <- Z.add_mod by exact HN.
  - intros a _. rewrite Z.mul_1_r. pose proof (Z.mod_pos_bound a N).
    apply andb_true_iff; split; [apply Z.leb_le|apply Z.ltb_lt]; unfold N in *; lia.
  - intro Ha. pose proof (Z.mod_pos_bound (be_value Ha) (N - 1)). unfold N in *; lia.
  - intros klen z _. apply repeat_length.
  - intros k d. unfold digest. now rewrite length_map, length_seq.
  - lia.
Qed.

(** The exchange keys of "A" and "N" for [ke = 7] and [hid = 2]:
    [dA = 7 / (43 + 7)] and [dB = 7 / (71 + 7)] modulo 101. *)
Definition alice_exch_key : SM9_EXCH_KEY :=
  {| enc_key_Ppube := enc_mpk_Ppube enc_msk;
     enc_key_de := sm9_z256_twist_point_mul_generator 87 |}.
Definition kate_exch_key : SM9_EXCH_KEY :=
  {| enc_key_Ppube := enc_mpk_Ppube enc_msk;
     enc_key_de := sm9_z256_twist_point_mul_generator 48 |}.
(** Another 32-byte tag. *)
Definition zero_tag : bytes := repeat 0 32.

Ltac disch :=
  solve [ reflexivity | vm_refl | vm_compute; reflexivity | vm_compute; discriminate
        | vm_compute; lia | vm_compute; intuition discriminate ].

(** X1, witness: "A" signs "M" with [ks = 5], [ds = 13 P1] and the draw 3. *)
Lemma sm9_sign_verify_roundtrip_witness :
  exists sig,
    sm9_do_sign alice_sign_key ctx_M (mkst [3] [])
    = Some ((1, Some sig), mkst [] ([] ++ [EvPairing; EvRand 3]))
    /\ forall s, sm9_do_verify sign_msk alice ctx_M sig s
                 = Some (1, mkst (st_draws s) (st_log s ++ [EvPairing; EvPairing])).
Proof.
  apply (sm9_sign_verify_roundtrip (Prm := prims) sign_msk alice_sign_key alice
           5 13 ctx_M 3 [] []); disch.
Defined.

(** X2, witness: the same through [sm9_sign_finish] and [sm9_verify_finish]. *)
Lemma sm9_sign_finish_verify_finish_witness :
  exists der,
    sm9_sign_finish (sm9_sign_update sm9_sign_init msg_M) alice_sign_key (mkst [3] [])
    = Some ((1, Some der), mkst [] ([] ++ [EvPairing; EvRand 3]))
    /\ length der = 104%nat
    /\ forall s, sm9_verify_finish (sm9_verify_update sm9_verify_init msg_M) der sign_msk
                   alice s
                 = Some (1, mkst (st_draws s) (st_log s ++ [EvPairing; EvPairing])).
Proof.
  apply (sm9_sign_finish_verify_finish (Prm := prims) sign_msk alice_sign_key alice
           msg_M 5 13 3 [] []); disch.
Defined.

(** X3, witness: the signature [(69, 51)]. *)
Lemma sm9_signature_to_der_size_witness :
  length (sm9_signature_to_der toy_sig) = 104%nat.
Proof.
  apply (sm9_signature_to_der_size (Prm := prims) toy_sig); disch.
Defined.

(** X4, witness: that signature followed by one byte is refused. *)
Lemma sm9_verify_finish_trailing_witness :
  sm9_verify_finish ctx_M (sm9_signature_to_der toy_sig ++ [0]) sign_msk alice (mkst [] [])
  = Some (-1, mkst [] []).
Proof.
  apply (sm9_verify_finish_trailing (Prm := prims) ctx_M toy_sig sign_msk alice [0]
           (mkst [] [])); disch.
Defined.

(** X5, witness: the KEM for "N" with [ke = 7], [de = 41 P2], [klen = 16]
    and the draw 3. *)
Lemma sm9_kem_roundtrip_witness :
  exists K C,
    sm9_kem_encrypt enc_msk kate 16 (mkst [3] [])
    = Some ((1, Some (K, C)), mkst [] ([] ++ [EvRand 3; EvPairing; EvKdf 16]))
    /\ forall s, sm9_kem_decrypt kate_enc_key kate C 16 s
                 = Some ((1, Some K), mkst (st_draws s) (st_log s ++ [EvPairing; EvKdf 16])).
Proof.
  eexists _, _.
  apply (sm9_kem_roundtrip (Prm := prims) enc_msk kate_enc_key kate 7 41 16 3 [] []);
    disch.
Defined.

(** X7, witness: [plain] encrypted for "N" with the draw 3. *)
Lemma sm9_encrypt_decrypt_roundtrip_witness :
  exists ct,
    sm9_encrypt enc_msk kate plain (mkst [3] [])
    = Some ((1, Some ct), mkst [] ([] ++ [EvRand 3; EvPairing; EvKdf 48; EvHmac]))
    /\ forall s, sm9_decrypt kate_enc_key kate ct true s
                 = Some ((1, Some 3, Some plain),
                         mkst (st_draws s) (st_log s ++ [EvPairing; EvKdf 48; EvHmac])).
Proof.
  apply (sm9_encrypt_decrypt_roundtrip (Prm := prims) enc_msk kate_enc_key kate plain
           7 41 3 [] []); disch.
Defined.

(** X8, witness: the ciphertext of [plain] followed by one byte. *)
Lemma sm9_decrypt_rejects_trailing_witness :
  sm9_decrypt kate_enc_key kate (sm9_ciphertext_to_der 35 [166; 165; 164] toy_c3 ++ [0])
    true (mkst [] [])
  = Some ((-1, None, None), mkst [] []).
Proof.
  apply (sm9_decrypt_rejects_trailing (Prm := prims) kate_enc_key kate 35
           [166; 165; 164] toy_c3 [0] true (mkst [] [])); disch.
Defined.

(** X9, witness: "A" and "N" agree on a 16-byte key. *)
Lemma sm9_exch_agreement_witness :
  exists RA RB sk,
    sm9_exch_step_1A enc_msk kate (mkst [1] [])
    = Some ((1, Some (RA, SM9_TEST_rA)), mkst [] ([] ++ [EvRand 1]))
    /\ sm9_exch_step_1B enc_msk alice kate kate_exch_key RA 16 (mkst [2] [])
       = Some ((1, Some (RB, sk)),
               mkst [] ([] ++ [EvRand 2; EvPairing; EvPairing; EvKdf 16]))
    /\ forall fuel s,
       sm9_exch_step_2A enc_msk alice kate alice_exch_key SM9_TEST_rA RA RB 16 (S fuel) s
       = Some ((1, Some sk), mkst (st_draws s) (st_log s ++ [EvPairing; EvPairing; EvKdf 16])).
Proof.
  eexists _, _, _.
  apply (sm9_exch_agreement (Prm := prims) enc_msk alice_exch_key kate_exch_key
           alice kate 7 87 48 16 1 2 [] [] [] []); disch.
Defined.

(** X10, witness: the signature of "M" with the draw 3. *)
Lemma sm9_do_sign_output_range_witness :
  1 <= 69 <= SM9_Z256_N - 1
  /\ exists l, 1 <= l <= SM9_Z256_N - 1
             /\ 51 = @sm9_z256_point_mul prims l (sign_key_ds alice_sign_key).
Proof.
  apply (sm9_do_sign_output_range (Prm := prims) alice_sign_key ctx_M (mkst [3] [])
           toy_sig (mkst [] [EvPairing; EvRand 3])); disch.
Defined.

(** X11, witness: the C2 of [plain] with its tag, and with 32 zero bytes. *)
Lemma sm9_do_decrypt_tag_unique_witness :
  sm9_do_decrypt kate_enc_key kate 35 [166; 165; 164] zero_tag (mkst [] [])
  = Some ((-1, None), mkst [] [EvPairing; EvKdf 48; EvHmac]).
Proof.
  apply (sm9_do_decrypt_tag_unique (Prm := prims) kate_enc_key kate 35 [166; 165; 164]
           toy_c3 zero_tag (mkst [] []) plain); disch.
Defined.

(** X13, witness: a 17-byte message, and a ciphertext with a 17-byte C2. *)
Lemma sm9_envelope_size_limit_witness :
  sm9_encrypt enc_msk kate (repeat 1 17) (mkst [3] []) = Some ((-1, None), mkst [3] [])
  /\ sm9_decrypt kate_enc_key kate (sm9_ciphertext_to_der 35 (repeat 1 17) toy_c3) true
       (mkst [] [])
     = Some ((-1, Some 17, None), mkst [] []).
Proof.
  split.
  - apply (proj1 (sm9_envelope_size_limit (Prm := prims))); disch.
  - apply (proj2 (sm9_envelope_size_limit (Prm := prims))); disch.
Defined.

End ToyExtras.
